(** * Vector stores of the retrieval pipeline: a shallow embedding.

    The two stores of [vector_store/] are embedded here:
    [SemanticVectorStore] (dense, cosine similarity over embeddings) and
    [SparseVectorStore] (BM25+ over token statistics).

    - Python floats and numpy [float64] values are IEEE binary64 numbers:
      Rocq's primitive floats.
    - A Python [dict] keeps insertion order; it is an association list
      with the update discipline of [dict.__setitem__].
    - A Python exception is the [Raise] outcome of a state-and-exception
      monad; what was mutated before the raise stays mutated.
    - The file system and the log sink are part of the [World].
    - The tokenizer, the embedding model, [np.log] and [np.argsort] are
      external: they are variables of the sections that use them.  Of
      [np.argsort] the properties assume what numpy promises, an
      ascending order of the positions, and nothing about the order of
      equal scores. *)

From Stdlib Require Import String Ascii.
From Stdlib Require Import ZArith List Bool Lia Arith.
From Stdlib Require Import Permutation Sorted.
From Stdlib Require Import DecimalString DecimalNat.
From Stdlib Require Import Floats.
Import ListNotations.

Local Open Scope string_scope.
Local Open Scope list_scope.

(** ** Outcomes and the state-and-exception monad *)

Inductive exn : Type :=
| KeyError (key : string)
| ZeroDivisionError
| ValueError
| IndexError
| FileNotFoundError (path : string).

Inductive outcome (A : Type) : Type :=
| Return (a : A)
| Raise (e : exn).

Arguments Return {A} a.
Arguments Raise {A} e.

Definition M (St A : Type) : Type := St -> outcome A * St.

Definition ret {St A} (a : A) : M St A := fun st => (Return a, st).

Definition raise {St A} (e : exn) : M St A := fun st => (Raise e, st).

Definition bind {St A B} (m : M St A) (k : A -> M St B) : M St B :=
  fun st =>
    match m st with
    | (Return a, st') => k a st'
    | (Raise e, st') => (Raise e, st')
    end.

Definition get_state {St} : M St St := fun st => (Return st, st).

Definition put_state {St} (st : St) : M St unit := fun _ => (Return tt, st).

Definition modify {St} (f : St -> St) : M St unit := fun st => (Return tt, f st).

Declare Scope py_scope.
Delimit Scope py_scope with py.

Notation "x <- m ;; k" := (bind m (fun x => k))
  (at level 61, m at next level, right associativity) : py_scope.
Notation "m ;; k" := (bind m (fun _ => k))
  (at level 61, right associativity) : py_scope.

(** [for x in xs: body x] *)
Fixpoint for_each {St A} (xs : list A) (body : A -> M St unit) : M St unit :=
  match xs with
  | [] => ret tt
  | x :: rest => bind (body x) (fun _ => for_each rest body)
  end.

(** A list comprehension whose element expression may raise. *)
Fixpoint map_outcome {A B} (f : A -> outcome B) (xs : list A) : outcome (list B) :=
  match xs with
  | [] => Return []
  | x :: rest =>
      match f x with
      | Raise e => Raise e
      | Return y =>
          match map_outcome f rest with
          | Raise e => Raise e
          | Return ys => Return (y :: ys)
          end
      end
  end.

(** ** Python dictionaries with string keys *)

Module Dict.

Definition t (V : Type) : Type := list (string * V).

Definition empty {V} : t V := [].

(** [d.get(k)] *)
Fixpoint get {V} (k : string) (d : t V) : option V :=
  match d with
  | [] => None
  | (k', v) :: rest => if String.eqb k k' then Some v else get k rest
  end.

(** [k in d] *)
Definition mem {V} (k : string) (d : t V) : bool :=
  match get k d with Some _ => true | None => false end.

(** [d[k] = v]: an existing key keeps its place, a new key goes last. *)
Fixpoint set {V} (k : string) (v : V) (d : t V) : t V :=
  match d with
  | [] => [(k, v)]
  | (k', v') :: rest =>
      if String.eqb k k' then (k', v) :: rest else (k', v') :: set k v rest
  end.

(** [del d[k]] for a key that is present *)
Fixpoint del {V} (k : string) (d : t V) : t V :=
  match d with
  | [] => []
  | (k', v') :: rest =>
      if String.eqb k k' then rest else (k', v') :: del k rest
  end.

Definition keys {V} (d : t V) : list string := map fst d.

Definition values {V} (d : t V) : list V := map snd d.

(** [d[k]], raising [KeyError] on a missing key *)
Definition item {V} (k : string) (d : t V) : outcome V :=
  match get k d with
  | Some v => Return v
  | None => Raise (KeyError k)
  end.

End Dict.

(** ** Nodes and query results *)

(** Modelled from the spec: the node type of [vector_store/node.py], which
    is not among the sources: an id, the passage, an open metadata mapping
    and an optional embedding. *)
Record TextNode : Type := mkTextNode {
  id_ : string;
  text : string;
  metadata : Dict.t string;
  embedding : option (list float)
}.

(** Modelled from the spec: the query result of [vector_store/node.py]:
    three parallel sequences.  The element types are those of the values
    the engines pass in. *)
Record VectorStoreQueryResult (N I : Type) : Type := mkResult {
  nodes : list N;
  similarities : list float;
  ids : list I
}.

Arguments mkResult {N I} nodes similarities ids.
Arguments nodes {N I} _.
Arguments similarities {N I} _.
Arguments ids {N I} _.

(** ** The world outside the store objects *)

(** The derived statistics of the sparse engine; this is also the record
    written to the sidecar. *)
Record Bm25Assets : Type := mkAssets {
  corpus_size : Z;
  avgdl : float;
  doc_freqs : list (Dict.t Z);
  idf : Dict.t float;
  doc_len : list Z;
  nd : Z
}.

(** What a file holds.  [json.dump] followed by [json.load] gives back
    the integers, the strings, the order of lists and of dictionary keys,
    and every float (written with [repr], NaN and the infinities
    included): a sidecar is the record that was written. *)
Inductive file : Type :=
| CsvFile (rows : list TextNode)
| JsonFile (content : Bm25Assets).

Inductive event : Type :=
| LogError (message : string)
| LogInfo (message : string)
| WroteCsv (path : string) (rows : list TextNode)
| WroteJson (path : string) (content : Bm25Assets).

Record World : Type := mkWorld {
  fs : Dict.t file;
  events : list event
}.

Definition emit (e : event) (w : World) : World :=
  mkWorld (fs w) (events w ++ [e]).

Definition write_file (path : string) (f : file) (w : World) : World :=
  mkWorld (Dict.set path f (fs w)) (events w).

Definition not_found_message (text_id : string) : string :=
  "Node with id `" ++ text_id ++ "` not found.".

(** ** Sorting and slicing as Python and numpy do them *)

Section Sorting.

Context {A : Type} (lt : A -> A -> bool).

(** One step of insertion sort.  [acc] holds the elements already placed,
    last one first; the new element moves towards the front of the array
    while it is smaller than the element before it. *)
Fixpoint sift (x : A) (acc : list A) : list A :=
  match acc with
  | [] => [x]
  | y :: rest => if lt x y then y :: sift x rest else x :: acc
  end.

Definition insertion_sort (l : list A) : list A :=
  rev (fold_left (fun acc x => sift x acc) l []).

End Sorting.

(** [sorted(l, key=..., reverse=True)].  CPython reverses the list, sorts
    it ascending with a stable sort and reverses it again.  The stable
    sort is modelled by insertion sort; on keys that [<] orders totally
    every stable sort returns the same list.  Among keys with a NaN [<]
    is no such order, and where CPython's merge sort then puts the
    elements depends on the comparisons it happens to make: statements
    about the order of equal keys are made for keys without NaN. *)
Definition sorted_reverse {A} (lt : A -> A -> bool) (l : list A) : list A :=
  rev (insertion_sort lt (rev l)).

(** The order numpy sorts [float64] by: [a < b], with NaN after every
    number. *)
Definition np_lt (a b : float) : bool :=
  (a <? b)%float || (is_nan b && negb (is_nan a)).

(** What [np.argsort(scores)] promises of the order it returns: the
    positions of [scores], each once, and no position is followed,
    anywhere later, by one with a smaller score.  The order of equal scores
    is not promised: the default kind of sort is not stable, and numpy
    picks the algorithm by the length of the array and by the processor. *)
Definition ascending_positions (scores : list float) (order : list nat) : Prop :=
  Permutation order (seq 0 (length scores)) /\
  StronglySorted
    (fun i j => np_lt (nth j scores 0%float) (nth i scores 0%float) = false) order.

(** A function that keeps this promise on every array *)
Definition numpy_argsort (argsort : list float -> list nat) : Prop :=
  forall scores, ascending_positions scores (argsort scores).

(** [l[:k]] for a Python integer [k] *)
Definition slice_to {A} (k : Z) (l : list A) : list A :=
  if (k <? 0)%Z
  then firstn (Z.to_nat (Z.max 0 (Z.of_nat (length l) + k))) l
  else firstn (Z.to_nat k) l.

(** [len(l[:k])] for a list of [n] elements *)
Definition slice_length (k n : Z) : Z :=
  if (k <? 0)%Z then Z.max 0 (n + k) else Z.min k n.

(** [str(p)] for a non-negative integer *)
Definition str (p : nat) : string := NilEmpty.string_of_uint (Nat.to_uint p).

(** [float(z)] for a Python integer below 2^63 in magnitude.  The
    quotient of two such floats is the true division [a / b] of Python
    for integers below 2^53. *)
Definition float_of_Z (z : Z) : float :=
  if (z <? 0)%Z
  then PrimFloat.opp (PrimFloat.of_uint63 (Uint63.of_Z (- z)))
  else PrimFloat.of_uint63 (Uint63.of_Z z).

(** The truth value of a float: [x or 0] keeps [x] unless it is zero. *)
Definition or_zero (x : option float) : float :=
  match x with
  | None => 0%float
  | Some v => if (v =? 0)%float then 0%float else v
  end.

(** A number, as opposed to NaN and the infinities ([math.isfinite]). *)
Definition finite (x : float) : bool :=
  match Prim2SF x with
  | S754_zero _ | S754_finite _ _ _ => true
  | S754_infinity _ | S754_nan => false
  end.

(** [s0 >= s1 >= ...] *)
Definition non_increasing (scores : list float) : Prop :=
  Sorted (fun a b => (b <=? a)%float = true) scores.

(** ** The dense engine *)

Module SemanticVectorStore.

(** Nodes are Python objects: [add] assigns to the [embedding] attribute
    of the nodes it is given, and the map holds the very objects that
    were passed in.  An object is a reference into a heap. *)
Definition ref : Type := nat.

Definition heap : Type := ref -> TextNode.

Definition update (h : heap) (r : ref) (n : TextNode) : heap :=
  fun r' => if Nat.eqb r' r then n else h r'.

Record t : Type := mk {
  node_dict : Dict.t ref;
  persist : bool;
  force_index : bool;
  saved_file : string;
  embed_model_name : string
}.

Record state : Type := mkState {
  self : t;
  objects : heap;
  world : World
}.

Definition set_node_dict (d : Dict.t ref) (s : t) : t :=
  mk d (persist s) (force_index s) (saved_file s) (embed_model_name s).

Definition logger (e : event) : M state unit :=
  modify (fun st => mkState (self st) (objects st) (emit e (world st))).

Definition rows (st : state) : list TextNode :=
  map (objects st) (Dict.values (node_dict (self st))).

(** Modelled from the spec: [_update_csv] of the base class
    ([vector_store/base.py], not among the sources): the node snapshot is
    rewritten in full when [persist] is enabled. *)
Definition _update_csv : M state unit :=
  fun st =>
    if persist (self st)
    then
      let path := saved_file (self st) in
      (Return tt,
       mkState (self st) (objects st)
         (emit (WroteCsv path (rows st))
            (write_file path (CsvFile (rows st)) (world st))))
    else (Return tt, st).

Section Engine.

(** [self.embed_model.encode(text).tolist()] *)
Variable embed : string -> list float.

Local Open Scope py_scope.

Definition _get_text_embedding (text : string) : list float := embed text.

Definition get (text_id : string) : M state (option ref) :=
  st <- get_state ;;
  match Dict.get text_id (node_dict (self st)) with
  | Some node => ret (Some node)
  | None => logger (LogError (not_found_message text_id)) ;; ret None
  end.

Definition set_embedding (e : list float) (n : TextNode) : TextNode :=
  mkTextNode (id_ n) (text n) (metadata n) (Some e).

Definition add_node (node : ref) : M state unit :=
  st <- get_state ;;
  (match embedding (objects st node) with
   | None =>
       logger (LogInfo ("Found node without embedding, calculating embedding with model "
                        ++ embed_model_name (self st))) ;;
       modify (fun st =>
         mkState (self st)
           (update (objects st) node
              (set_embedding (_get_text_embedding (text (objects st node)))
                 (objects st node)))
           (world st))
   | Some _ => ret tt
   end) ;;
  modify (fun st =>
    mkState (set_node_dict
               (Dict.set (id_ (objects st node)) node (node_dict (self st)))
               (self st))
      (objects st) (world st)).

Definition add (nodes : list ref) : M state (list string) :=
  for_each nodes add_node ;;
  _update_csv ;;
  st <- get_state ;;
  ret (map (fun node => id_ (objects st node)) nodes).

Definition delete (node_id : string) : M state unit :=
  st <- get_state ;;
  if Dict.mem node_id (node_dict (self st))
  then
    modify (fun st =>
      mkState (set_node_dict (Dict.del node_id (node_dict (self st))) (self st))
        (objects st) (world st)) ;;
    _update_csv
  else logger (LogError (not_found_message node_id)).

(** [np.dot] of two vectors and [np.linalg.norm] of one.  numpy leaves
    the order of the additions to its kernels; here they run from the
    first component to the last. *)
Definition dot (d q : list float) : float :=
  fold_left (fun acc xy => (acc + fst xy * snd xy)%float) (combine d q) 0%float.

Definition norm (v : list float) : float :=
  PrimFloat.sqrt (fold_left (fun acc x => (acc + x * x)%float) v 0%float).

(** [np.array(doc_embeddings)] against a query of dimension [dim]: an
    absent embedding or rows of another length are rejected by numpy with
    a [ValueError]. *)
Definition as_row (dim : nat) (e : option (list float)) : outcome (list float) :=
  match e with
  | None => Raise ValueError
  | Some v => if Nat.eqb (length v) dim then Return v else Raise ValueError
  end.

Definition cos_sim (q d : list float) : float :=
  (dot d q / (norm q * norm d))%float.

Definition _calculate_similarity
    (query_embedding : list float)
    (doc_embeddings : list (option (list float)))
    (doc_ids : list string)
    (similarity_top_k : Z) : outcome (list float * list string) :=
  match doc_embeddings with
  | [] => Raise ValueError
  | _ =>
      match map_outcome (as_row (length query_embedding)) doc_embeddings with
      | Raise e => Raise e
      | Return dembed_np =>
          let cos_sim_arr := map (cos_sim query_embedding) dembed_np in
          (* [cos_sim_arr[i] for i in range(len(doc_ids))] *)
          if Nat.ltb (length cos_sim_arr) (length doc_ids) then Raise IndexError
          else
            let sorted_tups :=
              slice_to similarity_top_k
                (sorted_reverse (fun a b => (fst a <? fst b)%float)
                   (combine cos_sim_arr doc_ids)) in
            Return (map fst sorted_tups, map snd sorted_tups)
      end
  end.

Definition lift {A} (o : outcome A) : M state A := fun st => (o, st).

Definition query (query : string) (top_k : Z)
  : M state (VectorStoreQueryResult ref string) :=
  st <- get_state ;;
  let query_embedding := _get_text_embedding query in
  let doc_embeddings :=
    map (fun node => embedding (objects st node)) (Dict.values (node_dict (self st))) in
  let doc_ids := Dict.keys (node_dict (self st)) in
  match doc_embeddings with
  | [] =>
      logger (LogError "No documents found in the index.") ;;
      ret (mkResult [] [] [])
  | _ =>
      r <- lift (_calculate_similarity query_embedding doc_embeddings doc_ids top_k) ;;
      result_nodes <- lift (map_outcome (fun node_id => Dict.item node_id (node_dict (self st)))
                              (snd r)) ;;
      ret (mkResult result_nodes (fst r) (snd r))
  end.

Fixpoint batch_query (queries : list string) (top_k : Z)
  : M state (list (VectorStoreQueryResult ref string)) :=
  match queries with
  | [] => ret []
  | q :: rest =>
      r <- query q top_k ;;
      rs <- batch_query rest top_k ;;
      ret (r :: rs)
  end.

End Engine.

End SemanticVectorStore.

(** ** The sparse engine *)

(** numpy's broadcasting of two one-dimensional arrays under an
    elementwise operation *)
Definition broadcast2 (f : float -> float -> float) (xs ys : list float)
  : outcome (list float) :=
  if Nat.eqb (length xs) (length ys)
  then Return (map (fun xy => f (fst xy) (snd xy)) (combine xs ys))
  else
    match xs, ys with
    | [x], _ => Return (map (f x) ys)
    | _, [y] => Return (map (fun x => f x y) xs)
    | _, _ => Raise ValueError
    end.

(** [score += term]: the right-hand side must broadcast to the shape of
    [score]. *)
Definition iadd (score term : list float) : outcome (list float) :=
  if Nat.eqb (length term) (length score)
  then Return (map (fun st => (fst st + snd st)%float) (combine score term))
  else
    match term with
    | [x] => Return (map (fun s => (s + x)%float) score)
    | _ => Raise ValueError
    end.

(** [np.zeros(n)] *)
Definition np_zeros (n : Z) : outcome (list float) :=
  if (n <? 0)%Z then Raise ValueError else Return (repeat 0%float (Z.to_nat n)).

Module SparseVectorStore.

Record t : Type := mk {
  node_dict : Dict.t TextNode;
  persist : bool;
  force_index : bool;
  saved_file : string;
  metadata_file : string;
  assets : Bm25Assets;
  k1 : float;
  b : float;
  delta : float
}.

Record state : Type := mkState {
  self : t;
  world : World
}.

Definition no_assets : Bm25Assets := mkAssets 0 0 [] [] [] 0.

(** The defaults of the algorithm-specific parameters: 1.2, 0.75, 0.25 *)
Definition default_k1 : float := 0x1.3333333333333p+0%float.
Definition default_b : float := 0.75%float.
Definition default_delta : float := 0.25%float.

Definition default_parameters (s : t) : Prop :=
  k1 s = default_k1 /\ b s = default_b /\ delta s = default_delta.

Definition set_node_dict (d : Dict.t TextNode) (s : t) : t :=
  mk d (persist s) (force_index s) (saved_file s) (metadata_file s)
    (assets s) (k1 s) (b s) (delta s).

Definition set_assets (a : Bm25Assets) (s : t) : t :=
  mk (node_dict s) (persist s) (force_index s) (saved_file s) (metadata_file s)
    a (k1 s) (b s) (delta s).

Definition update_self (f : t -> t) : M state unit :=
  modify (fun st => mkState (f (self st)) (world st)).

Definition update_world (f : World -> World) : M state unit :=
  modify (fun st => mkState (self st) (f (world st))).

Definition logger (e : event) : M state unit := update_world (emit e).

Definition lift {A} (o : outcome A) : M state A := fun st => (o, st).

(** Modelled from the spec: [_update_csv] of the base class
    ([vector_store/base.py], not among the sources): the node snapshot is
    rewritten in full when [persist] is enabled. *)
Definition _update_csv : M state unit :=
  fun st =>
    if persist (self st)
    then
      let path := saved_file (self st) in
      let rows := Dict.values (node_dict (self st)) in
      (Return tt,
       mkState (self st)
         (emit (WroteCsv path rows) (write_file path (CsvFile rows) (world st))))
    else (Return tt, st).

(** The loop over the words of one document:
    [if word not in frequencies: frequencies[word] = 0];
    [frequencies[word] += 1]. *)
Fixpoint count_words (document : list string) (frequencies : Dict.t Z) : Dict.t Z :=
  match document with
  | [] => frequencies
  | word :: rest =>
      let frequencies :=
        if Dict.mem word frequencies then frequencies
        else Dict.set word 0%Z frequencies in
      let frequencies :=
        match Dict.get word frequencies with
        | Some c => Dict.set word (c + 1)%Z frequencies
        | None => frequencies
        end in
      count_words rest frequencies
  end.

(** The loop over [frequencies.items()]:
    [try: nd[word] += 1 except KeyError: nd[word] = 1]. *)
Fixpoint count_documents (items : list (string * Z)) (nd : Dict.t Z) : Dict.t Z :=
  match items with
  | [] => nd
  | (word, _) :: rest =>
      count_documents rest
        (match Dict.get word nd with
         | Some c => Dict.set word (c + 1)%Z nd
         | None => Dict.set word 1%Z nd
         end)
  end.

(** The locals [nd] and [num_doc] of [_initialize] together with the
    fields it appends to. *)
Record locals : Type := mkLocals {
  loc_nd : Dict.t Z;
  loc_num_doc : Z;
  loc_assets : Bm25Assets
}.

(** The body of [for document in corpus] *)
Definition index_document (l : locals) (document : list string) : locals :=
  let a := loc_assets l in
  let frequencies := count_words document [] in
  mkLocals
    (count_documents frequencies (loc_nd l))
    (loc_num_doc l + Z.of_nat (length document))
    (mkAssets (corpus_size a + 1) (avgdl a)
       (doc_freqs a ++ [frequencies]) (idf a)
       (doc_len a ++ [Z.of_nat (length document)]) (nd a)).

Section Engine.

(** [self.tokenizer.tokenize], [np.log] and [np.argsort] *)
Variable tokenize : string -> list string.
Variable ln : float -> float.
Variable argsort : list float -> list nat.

Local Open Scope py_scope.

Definition _calculate_idf (doc_count corpus_size : Z) : float :=
  ln ((float_of_Z (corpus_size - doc_count) + 0.5)
      / (float_of_Z doc_count + 0.5) + 1)%float.

Definition _initialize (corpus : list (list string)) : M state unit :=
  st <- get_state ;;
  let l := fold_left index_document corpus (mkLocals [] 0 (assets (self st))) in
  update_self (set_assets (loc_assets l)) ;;
  let a := loc_assets l in
  if (corpus_size a =? 0)%Z then raise ZeroDivisionError
  else
    update_self (set_assets
      (mkAssets (corpus_size a)
         (float_of_Z (loc_num_doc l) / float_of_Z (corpus_size a))%float
         (doc_freqs a)
         (map (fun wc => (fst wc, _calculate_idf (snd wc) (corpus_size a))) (loc_nd l))
         (doc_len a) (nd a))).

(** [pool.map(self.tokenizer.tokenize, corpus)] returns the token lists
    in the order of the texts. *)
Definition _tokenize_text (corpus : list string) : list (list string) :=
  map tokenize corpus.

Definition _initialize_bm25_assets : M state unit :=
  update_self (set_assets no_assets) ;;
  st <- get_state ;;
  let corpus := _tokenize_text (map text (Dict.values (node_dict (self st)))) in
  _initialize corpus ;;
  st <- get_state ;;
  let content := assets (self st) in
  let path := metadata_file (self st) in
  update_world (fun w => emit (WroteJson path content) (write_file path (JsonFile content) w)).

Definition _load_from_json : M state unit :=
  st <- get_state ;;
  match Dict.get (metadata_file (self st)) (fs (world st)) with
  | Some (JsonFile content) => update_self (set_assets content)
  | Some (CsvFile _) => raise ValueError
  | None => raise (FileNotFoundError (metadata_file (self st)))
  end.

(** What [__init__] does once the base class has set the fields up *)
Definition __init__ : M state unit :=
  st <- get_state ;;
  match node_dict (self st) with
  | [] => ret tt
  | _ =>
      if Dict.mem (metadata_file (self st)) (fs (world st))
         && negb (force_index (self st))
      then _load_from_json
      else _initialize_bm25_assets
  end.

Definition add (nodes : list TextNode) : M state (list string) :=
  for_each nodes (fun node =>
    update_self (fun s => set_node_dict (Dict.set (id_ node) node (node_dict s)) s)) ;;
  _update_csv ;;
  _initialize_bm25_assets ;;
  ret (map id_ nodes).

Definition get (text_id : string) : M state (option TextNode) :=
  st <- get_state ;;
  match Dict.get text_id (node_dict (self st)) with
  | Some node => ret (Some node)
  | None => logger (LogError (not_found_message text_id)) ;; ret None
  end.

(** Modelled from the spec: [delete] is inherited from the base class
    ([vector_store/base.py], not among the sources): it removes the node
    if present, reports a missing id, and rewrites the snapshot; the
    derived statistics are rebuilt by [add] only. *)
Definition delete (node_id : string) : M state unit :=
  st <- get_state ;;
  if Dict.mem node_id (node_dict (self st))
  then
    update_self (fun s => set_node_dict (Dict.del node_id (node_dict s)) s) ;;
    _update_csv
  else logger (LogError (not_found_message node_id)).

(** [doc.get(q) or 0] *)
Definition freq_or_zero (q : string) (doc : Dict.t Z) : Z :=
  match Dict.get q doc with
  | Some c => if (c =? 0)%Z then 0%Z else c
  | None => 0%Z
  end.

(** One round of [for q in tokenized_query] *)
Definition score_token (s : t) (score : list float) (q : string)
  : outcome (list float) :=
  let a := assets s in
  let q_freq := map (fun doc => float_of_Z (freq_or_zero q doc)) (doc_freqs a) in
  let denominator :=
    map (fun dl => (1 - b s + b s * float_of_Z dl / avgdl a)%float) (doc_len a) in
  match broadcast2 PrimFloat.div q_freq denominator with
  | Raise e => Raise e
  | Return ctd =>
      iadd score
        (map (fun c =>
                (or_zero (Dict.get q (idf a)) * (k1 s + 1) * (c + delta s)
                 / (k1 s + c + delta s))%float) ctd)
  end.

Fixpoint score_tokens (s : t) (score : list float) (tokenized_query : list string)
  : outcome (list float) :=
  match tokenized_query with
  | [] => Return score
  | q :: rest =>
      match score_token s score q with
      | Raise e => Raise e
      | Return score' => score_tokens s score' rest
      end
  end.

Definition get_scores (s : t) (query : string) : outcome (list float) :=
  match np_zeros (corpus_size (assets s)) with
  | Raise e => Raise e
  | Return score => score_tokens s score (tokenize query)
  end.

Definition query (query : string) (top_k : Z)
  : M state (VectorStoreQueryResult TextNode nat) :=
  st <- get_state ;;
  scores <- lift (get_scores (self st) query) ;;
  let doc_ids := slice_to top_k (rev (argsort scores)) in
  nodes <- lift (map_outcome (fun doc_id => Dict.item (str doc_id) (node_dict (self st)))
                   doc_ids) ;;
  ret (mkResult nodes (map (fun doc_id => nth doc_id scores 0%float) doc_ids) doc_ids).

Fixpoint batch_query (queries : list string) (top_k : Z)
  : M state (list (VectorStoreQueryResult TextNode nat)) :=
  match queries with
  | [] => ret []
  | q :: rest =>
      r <- query q top_k ;;
      rs <- batch_query rest top_k ;;
      ret (r :: rs)
  end.

End Engine.

End SparseVectorStore.

(** ** The vocabulary of the properties *)

(** The placed elements, last one first, after the whole list went in. *)
Definition sifted {A} (lt : A -> A -> bool) (l : list A) : list A :=
  fold_left (fun acc x => sift lt x acc) l [].

(** No element of the result is followed by a greater one. *)
Definition not_below {A} (lt : A -> A -> bool) (u v : A) : Prop := lt u v = false.

(** A zero of either sign, or NaN *)
Definition zero_or_nan (x : spec_float) : Prop :=
  x = S754_nan \/ exists s, x = S754_zero s.

(** The embeddings of the stored nodes and their ids, in the iteration
    order of the node map. *)
Definition doc_embeddings_of (st : SemanticVectorStore.state) : list (option (list float)) :=
  map (fun node => embedding (SemanticVectorStore.objects st node))
    (Dict.values (SemanticVectorStore.node_dict (SemanticVectorStore.self st))).

(** Every stored node carries an embedding of dimension [dim]. *)
Definition conforming (dim : nat) (doc_embeddings : list (option (list float))) : Prop :=
  Forall (fun e => exists v, e = Some v /\ length v = dim) doc_embeddings.

(** The row [np.array] makes of an embedding that is there *)
Definition row_of (e : option (list float)) : list float :=
  match e with Some v => v | None => [] end.

(** The candidates [(cos_sim_arr[i], doc_ids[i])] and their ranking *)
Definition candidates (query_embedding : list float)
    (doc_embeddings : list (option (list float))) (doc_ids : list string)
  : list (float * string) :=
  combine (map (fun e => SemanticVectorStore.cos_sim query_embedding (row_of e)) doc_embeddings)
    doc_ids.

(** [key=lambda t: t[0]] under [<] *)
Definition by_similarity (a b : float * string) : bool := (fst a <? fst b)%float.

(** The candidates whose score equals [v] *)
Definition dense_tied (v : float) (c : float * string) : bool := (fst c =? v)%float.

(** The tokenized texts of the node map, in its iteration order *)
Definition corpus_of (tokenize : string -> list string) (s : SparseVectorStore.t)
  : list (list string) :=
  SparseVectorStore._tokenize_text tokenize
    (map text (Dict.values (SparseVectorStore.node_dict s))).

(** The statistics [_initialize] derives from a corpus, starting from the
    reset fields. *)
Definition built (ln : float -> float) (corpus : list (list string)) : Bm25Assets :=
  let l := fold_left SparseVectorStore.index_document corpus
             (SparseVectorStore.mkLocals [] 0 SparseVectorStore.no_assets) in
  let a := SparseVectorStore.loc_assets l in
  mkAssets (corpus_size a)
    (float_of_Z (SparseVectorStore.loc_num_doc l) / float_of_Z (corpus_size a))%float
    (doc_freqs a)
    (map (fun wc => (fst wc, SparseVectorStore._calculate_idf ln (snd wc) (corpus_size a)))
       (SparseVectorStore.loc_nd l))
    (doc_len a) (nd a).

(** [ps] are the first [top_k] of a ranking of the positions of [scores]:
    as many as the slice [[:top_k]] of the positions has, each once, and
    none of the positions left out has a score above that of one of them
    (in numpy's order, where NaN counts as the highest score). *)
Definition top_scoring (scores : list float) (top_k : Z) (ps : list nat) : Prop :=
  NoDup ps /\
  Z.of_nat (length ps) = slice_length top_k (Z.of_nat (length scores)) /\
  (forall p, In p ps -> p < length scores) /\
  (forall p q, In p ps -> q < length scores -> ~ In q ps ->
     np_lt (nth p scores 0%float) (nth q scores 0%float) = false).

(** The statistics of no document at all *)
Definition empty_index (a : Bm25Assets) : Prop :=
  corpus_size a = 0%Z /\ doc_freqs a = [] /\ doc_len a = [].

(** None of the scores is NaN. *)
Definition no_nan (scores : list float) : Prop :=
  Forall (fun s => is_nan s = false) scores.

(** The three sequences of a result have [n] elements each. *)
Definition has_length {N I} (r : VectorStoreQueryResult N I) (n : Z) : Prop :=
  Z.of_nat (length (nodes r)) = n /\
  Z.of_nat (length (similarities r)) = n /\
  Z.of_nat (length (ids r)) = n.

(** ** The BM25+ score, as the specification words it *)

(** [freq(q, d)]: the occurrences of [q] among the tokens of [d] *)
Definition freq (q : string) (d : list string) : Z :=
  Z.of_nat (count_occ string_dec d q).

(** [df(q)]: the documents of the corpus in which [q] occurs *)
Definition df (corpus : list (list string)) (q : string) : Z :=
  Z.of_nat (length (filter (fun d => negb (freq q d =? 0)%Z) corpus)).

(** [x] if it is there, 0 otherwise *)
Definition or_default (x : option Z) : Z :=
  match x with Some c => c | None => 0%Z end.

Module Bm25.

Section Formula.

Variable ln : float -> float.
Variable corpus : list (list string).

Definition k1 : float := 0x1.3333333333333p+0%float.
Definition b : float := 0.75%float.
Definition delta : float := 0.25%float.

Definition N : Z := Z.of_nat (length corpus).

Definition len (d : list string) : Z := Z.of_nat (length d).

(** total tokens across the corpus / corpus size *)
Definition avgdl : float :=
  (float_of_Z (Z.of_nat (length (concat corpus))) / float_of_Z N)%float.

(** ln((N - df + 0.5) / (df + 0.5) + 1), and 0 for a term the corpus
    does not have *)
Definition idf (q : string) : float :=
  if (df corpus q =? 0)%Z then 0%float
  else ln ((float_of_Z (N - df corpus q) + 0.5) / (float_of_Z (df corpus q) + 0.5) + 1)%float.

(** tf'(q, d) = freq(q, d) / (1 - b + b * len(d) / avgdl) *)
Definition tf' (q : string) (d : list string) : float :=
  (float_of_Z (freq q d) / (1 - b + b * float_of_Z (len d) / avgdl))%float.

(** idf(q) * (k1 + 1) * (tf' + delta) / (k1 + tf' + delta) *)
Definition contribution (q : string) (d : list string) : float :=
  (idf q * (k1 + 1) * (tf' q d + delta) / (k1 + tf' q d + delta))%float.

(** The sum over the occurrences of the query tokens, in their order *)
Definition score (tokenized_query : list string) (d : list string) : float :=
  fold_left (fun acc q => (acc + contribution q d)%float) tokenized_query 0%float.

End Formula.

End Bm25.

(** ** The pipeline script *)

Module Main.

(** [enumerate(nodes)] *)
Fixpoint enumerate_from {A} (start : nat) (l : list A) : list (nat * A) :=
  match l with
  | [] => []
  | x :: rest => (start, x) :: enumerate_from (S start) rest
  end.

(** [prepare_data_nodes].  The PDF reader and the sentence splitter are
    external: [parsed] stands for what
    [node_parser.get_nodes_from_documents(documents)] returns, the text
    and the metadata of every chunk. *)
Definition prepare_data_nodes (parsed : list (string * Dict.t string)) : list TextNode :=
  map (fun p => mkTextNode (str (fst p)) (fst (snd p)) (snd (snd p)) None)
    (enumerate_from 0 parsed).

End Main.

(** ** More vocabulary *)

(** The node map after [for node in nodes: node_dict[node.id_] = node] *)
Definition inserted (nodes : list TextNode) (d : Dict.t TextNode) : Dict.t TextNode :=
  fold_left (fun d node => Dict.set (id_ node) node d) nodes d.

(** The last node of [nodes] whose id is [k] *)
Definition last_with_id (k : string) (nodes : list TextNode) : option TextNode :=
  find (fun node => String.eqb (id_ node) k) (rev nodes).

(** [sum(d.values())] *)
Definition sum_values (d : Dict.t Z) : Z := fold_right Z.add 0%Z (Dict.values d).

(** The object an [add] of the dense store leaves at a reference it was
    given: an embedding that is there stays, a missing one is computed. *)
Definition embedded (embed : string -> list float) (n : TextNode) : TextNode :=
  match embedding n with
  | Some _ => n
  | None => mkTextNode (id_ n) (text n) (metadata n) (Some (embed (text n)))
  end.

(** The node map of the dense store after
    [for node in nodes: node_dict[node.id_] = node] *)
Definition inserted_refs (h : SemanticVectorStore.heap)
    (nodes : list SemanticVectorStore.ref) (d : Dict.t SemanticVectorStore.ref)
  : Dict.t SemanticVectorStore.ref :=
  fold_left (fun d node => Dict.set (id_ (h node)) node d) nodes d.

(** ** Concrete collaborators and stores, to run the model on *)

Module Example.

(** A tokenizer that splits at blanks. *)
Fixpoint split_at_blanks (current : string) (s : string) : list string :=
  match s with
  | EmptyString =>
      match current with EmptyString => [] | _ => [current] end
  | String c rest =>
      if Ascii.eqb c " "%char
      then
        match current with
        | EmptyString => split_at_blanks EmptyString rest
        | _ => current :: split_at_blanks EmptyString rest
        end
      else split_at_blanks (current ++ String c EmptyString) rest
  end.

Definition tokenize (s : string) : list string := split_at_blanks EmptyString s.

(** A stand-in for the logarithm: [x - 1], with the sign of a zero
    result dropped. *)
Definition ln (x : float) : float :=
  let y := (x - 1)%float in if (y =? 0)%float then 0%float else y.

(** A sort that keeps the promise of [np.argsort]: the stable insertion
    sort of the positions under numpy's order. *)
Definition argsort (scores : list float) : list nat :=
  map fst
    (insertion_sort (fun a b => np_lt (snd a) (snd b))
       (combine (seq 0 (length scores)) scores)).

(** Another sort that keeps the promise: the stable insertion sort of the
    positions taken from the last to the first, which puts equal scores
    the other way round. *)
Definition argsort_from_the_end (scores : list float) : list nat :=
  map fst
    (insertion_sort (fun a b => np_lt (snd a) (snd b))
       (rev (combine (seq 0 (length scores)) scores))).

(** A stand-in for the embedding model: every text goes to [(1, 0)]. *)
Definition embed (_ : string) : list float := [1%float; 0%float].

Definition world0 : World := mkWorld [] [].

Definition node0 : TextNode := mkTextNode "0" "the cat sat" [] None.
Definition node1 : TextNode := mkTextNode "1" "the dog ran" [] None.

Definition sparse0 : SparseVectorStore.state :=
  SparseVectorStore.mkState
    (SparseVectorStore.mk [] true false "sparse.csv" "sparse_metadata.json"
       SparseVectorStore.no_assets SparseVectorStore.default_k1
       SparseVectorStore.default_b SparseVectorStore.default_delta)
    world0.

(** [sparse0] after [add([node0, node1])] *)
Definition sparse2 : SparseVectorStore.state :=
  snd (SparseVectorStore.add tokenize ln [node0; node1] sparse0).

(** Three dense nodes that carry their embeddings: [(3, 4)], [(0, 0)]
    and [(1, 0)]. *)
Definition objects0 : SemanticVectorStore.heap :=
  fun r =>
    match r with
    | 0 => mkTextNode "a" "first" [] (Some [3%float; 4%float])
    | 1 => mkTextNode "b" "second" [] (Some [0%float; 0%float])
    | 2 => mkTextNode "c" "third" [] (Some [1%float; 0%float])
    | _ => mkTextNode "d" "fourth" [] None
    end.

Definition dense0 : SemanticVectorStore.state :=
  SemanticVectorStore.mkState
    (SemanticVectorStore.mk [] true false "dense.csv" "all-MiniLM-L6-v2")
    objects0 world0.

(** [dense0] after [add] of the first three objects *)
Definition dense3 : SemanticVectorStore.state :=
  snd (SemanticVectorStore.add embed [0; 1; 2] dense0).

(** [dense0] after [add] of the object whose embedding is [(0, 0)] *)
Definition dense_zero : SemanticVectorStore.state :=
  snd (SemanticVectorStore.add embed [1] dense0).

(** [sparse0] after [add([node0])] and [delete("0")] *)
Definition sparse_deleted : SparseVectorStore.state :=
  snd (SparseVectorStore.delete "0"
         (snd (SparseVectorStore.add tokenize ln [node0] sparse0))).

(** A store of [node0] alone, constructed beside the sidecar that
    [sparse2] wrote for two nodes: the constructor loads it. *)
Definition sparse_stale : SparseVectorStore.state :=
  snd (SparseVectorStore.__init__ tokenize ln
         (SparseVectorStore.mkState
            (SparseVectorStore.mk [("0", node0)] true false "sparse.csv" "sparse_metadata.json"
               SparseVectorStore.no_assets SparseVectorStore.default_k1
               SparseVectorStore.default_b SparseVectorStore.default_delta)
            (SparseVectorStore.world sparse2))).

End Example.


(** * Properties *)

(** ** Dictionaries *)

Lemma dict_get_set_same {V} (k : string) (v : V) (d : Dict.t V) :
  Dict.get k (Dict.set k v d) = Some v.
Proof.
  induction d as [|[k' v'] d IH]; simpl.
  - now rewrite String.eqb_refl.
  - destruct (String.eqb k k') eqn:E; simpl; now rewrite E.
Qed.

Lemma dict_get_set_other {V} (k k0 : string) (v : V) (d : Dict.t V) :
  k0 <> k -> Dict.get k0 (Dict.set k v d) = Dict.get k0 d.
Proof.
  intros Hne. induction d as [|[k' v'] d IH]; simpl.
  - destruct (String.eqb k0 k) eqn:E; [apply String.eqb_eq in E; contradiction | reflexivity].
  - destruct (String.eqb k k') eqn:E; simpl.
    + apply String.eqb_eq in E. subst k'.
      destruct (String.eqb k0 k) eqn:E0; [apply String.eqb_eq in E0; contradiction | reflexivity].
    + now rewrite IH.
Qed.

Lemma dict_set_not_empty {V} (k : string) (v : V) (d : Dict.t V) :
  Dict.set k v d <> [].
Proof.
  destruct d as [|[k' v'] d]; simpl; [discriminate|].
  destruct (String.eqb k k'); discriminate.
Qed.

Lemma dict_mem_get {V} (k : string) (d : Dict.t V) :
  Dict.mem k d = false <-> Dict.get k d = None.
Proof.
  unfold Dict.mem. destruct (Dict.get k d); split; intro H; congruence.
Qed.

(** ** [get], [add] and [delete] *)

Ltac run_monad :=
  cbv beta iota delta [bind ret raise modify get_state put_state] in *.

Ltac run :=
  run_monad;
  cbn [for_each fst snd
       SemanticVectorStore.self SemanticVectorStore.objects
       SemanticVectorStore.world SemanticVectorStore.node_dict
       SemanticVectorStore.persist SemanticVectorStore.saved_file
       SemanticVectorStore.set_node_dict
       SparseVectorStore.self SparseVectorStore.world
       SparseVectorStore.node_dict SparseVectorStore.persist
       SparseVectorStore.saved_file SparseVectorStore.metadata_file
       SparseVectorStore.assets SparseVectorStore.set_node_dict
       SparseVectorStore.set_assets] in *;
  run_monad.

Lemma dense_get_present (text_id : string) (node : SemanticVectorStore.ref)
    (st : SemanticVectorStore.state) :
  Dict.get text_id (SemanticVectorStore.node_dict (SemanticVectorStore.self st)) = Some node ->
  SemanticVectorStore.get text_id st = (Return (Some node), st).
Proof.
  intros H. unfold SemanticVectorStore.get. run. now rewrite H.
Qed.

Lemma dense_get_missing (text_id : string) (st : SemanticVectorStore.state) :
  Dict.get text_id (SemanticVectorStore.node_dict (SemanticVectorStore.self st)) = None ->
  SemanticVectorStore.get text_id st =
  (Return None,
   SemanticVectorStore.mkState (SemanticVectorStore.self st)
     (SemanticVectorStore.objects st)
     (emit (LogError (not_found_message text_id)) (SemanticVectorStore.world st))).
Proof.
  intros H. unfold SemanticVectorStore.get. run. now rewrite H.
Qed.

Lemma dense_update_csv_self (st : SemanticVectorStore.state) :
  fst (SemanticVectorStore._update_csv st) = Return tt /\
  SemanticVectorStore.self (snd (SemanticVectorStore._update_csv st))
  = SemanticVectorStore.self st /\
  SemanticVectorStore.objects (snd (SemanticVectorStore._update_csv st))
  = SemanticVectorStore.objects st.
Proof.
  unfold SemanticVectorStore._update_csv.
  destruct (SemanticVectorStore.persist (SemanticVectorStore.self st)); auto.
Qed.

(** What [add_node] leaves behind: the object carries an embedding, keeps
    its id, and is the value of its id in the map. *)
Lemma dense_add_node (embed : string -> list float)
    (node : SemanticVectorStore.ref) (st : SemanticVectorStore.state) :
  let st' := snd (SemanticVectorStore.add_node embed node st) in
  fst (SemanticVectorStore.add_node embed node st) = Return tt /\
  id_ (SemanticVectorStore.objects st' node) = id_ (SemanticVectorStore.objects st node) /\
  SemanticVectorStore.node_dict (SemanticVectorStore.self st')
  = Dict.set (id_ (SemanticVectorStore.objects st node)) node
      (SemanticVectorStore.node_dict (SemanticVectorStore.self st)) /\
  embedding (SemanticVectorStore.objects st' node)
  = Some match embedding (SemanticVectorStore.objects st node) with
         | Some e => e
         | None => embed (text (SemanticVectorStore.objects st node))
         end.
Proof.
  unfold SemanticVectorStore.add_node, SemanticVectorStore.logger. run.
  destruct (embedding (SemanticVectorStore.objects st node)) eqn:E; run.
  - rewrite E. auto.
  - unfold SemanticVectorStore.update. rewrite Nat.eqb_refl. cbn. auto.
Qed.

Lemma dense_add_one (embed : string -> list float)
    (node : SemanticVectorStore.ref) (st : SemanticVectorStore.state) :
  let st' := snd (SemanticVectorStore.add embed [node] st) in
  fst (SemanticVectorStore.add embed [node] st)
  = Return [id_ (SemanticVectorStore.objects st' node)] /\
  SemanticVectorStore.get (id_ (SemanticVectorStore.objects st' node)) st'
  = (Return (Some node), st').
Proof.
  destruct (dense_add_node embed node st) as (H1 & H2 & H3 & _).
  cbv zeta. unfold SemanticVectorStore.add. run. run.
  destruct (SemanticVectorStore.add_node embed node st) as [o st1].
  run. subst o. run.
  destruct (dense_update_csv_self st1) as (U1 & U2 & U3).
  destruct (SemanticVectorStore._update_csv st1) as [o st2].
  run. subst o. run. split; [reflexivity|].
  apply dense_get_present. rewrite U2, U3, H3, H2.
  apply dict_get_set_same.
Qed.

(** ** Facts of IEEE arithmetic *)

Lemma SFcompare_antisym (x y : spec_float) :
  SFcompare y x = option_map CompOpp (SFcompare x y).
Proof.
  destruct x as [sx|sx| |sx mx ex], y as [sy|sy| |sy my ey]; cbn;
    try reflexivity;
    try (destruct sx; reflexivity); try (destruct sy; reflexivity);
    try (destruct sx, sy; reflexivity).
  destruct sx, sy; try reflexivity.
  - rewrite (Z.compare_antisym ey ex).
    destruct (ey ?= ex)%Z; cbn; try reflexivity.
    now rewrite (Pos.compare_cont_antisym mx my Eq).
  - rewrite (Z.compare_antisym ey ex).
    destruct (ey ?= ex)%Z; cbn; try reflexivity.
    now rewrite (Pos.compare_cont_antisym mx my Eq).
Qed.

Lemma SFcompare_Eq (x y : spec_float) :
  SFcompare x y = Some Eq ->
  x = y \/ exists sx sy, x = S754_zero sx /\ y = S754_zero sy.
Proof.
  destruct x as [sx|sx| |sx mx ex], y as [sy|sy| |sy my ey]; cbn;
    try discriminate;
    try (destruct sx; discriminate); try (destruct sy; discriminate).
  - intros _. right. eauto.
  - destruct sx, sy; try discriminate; auto.
  - destruct sx, sy; try discriminate.
    + destruct (ex ?= ey)%Z eqn:E; try discriminate.
      apply Z.compare_eq in E. subst ey.
      destruct (Pos.compare_cont Eq mx my) eqn:E'; try discriminate.
      apply Pos.compare_eq in E'. subst. auto.
    + destruct (ex ?= ey)%Z eqn:E; try discriminate.
      apply Z.compare_eq in E. subst ey.
      destruct (Pos.compare_cont Eq mx my) eqn:E'; try discriminate.
      apply Pos.compare_eq in E'. subst. auto.
Qed.

Lemma ltb_asym (x y : float) : (x <? y)%float = true -> (y <? x)%float = false.
Proof.
  rewrite !ltb_spec. unfold SFltb.
  rewrite (SFcompare_antisym (Prim2SF x) (Prim2SF y)).
  destruct (SFcompare (Prim2SF x) (Prim2SF y)) as [[]|]; cbn; congruence.
Qed.

Lemma not_nan_SF (x : float) : is_nan x = false -> Prim2SF x <> S754_nan.
Proof.
  unfold is_nan. rewrite eqb_spec. unfold SFeqb. intros H E.
  rewrite E in H. cbn in H. discriminate.
Qed.

Lemma SFcompare_defined (x y : spec_float) :
  x <> S754_nan -> y <> S754_nan -> SFcompare x y <> None.
Proof.
  destruct x, y; cbn; congruence.
Qed.

Lemma ltb_false_leb (x y : float) :
  is_nan x = false -> is_nan y = false ->
  (x <? y)%float = false -> (y <=? x)%float = true.
Proof.
  intros Hx Hy. rewrite ltb_spec, leb_spec. unfold SFltb, SFleb.
  rewrite (SFcompare_antisym (Prim2SF x) (Prim2SF y)).
  pose proof (SFcompare_defined _ _ (not_nan_SF _ Hx) (not_nan_SF _ Hy)) as Hd.
  destruct (SFcompare (Prim2SF x) (Prim2SF y)) as [[]|]; cbn; congruence.
Qed.

Lemma SFcompare_refl (x : spec_float) :
  x <> S754_nan -> SFcompare x x = Some Eq.
Proof.
  destruct x as [s|s| |s m e]; cbn; try congruence; intros _.
  - destruct s; reflexivity.
  - rewrite Z.compare_refl, Pos.compare_cont_refl. destruct s; reflexivity.
Qed.

Lemma SF_not_nan (x : float) : Prim2SF x <> S754_nan -> is_nan x = false.
Proof.
  intros H. unfold is_nan. rewrite eqb_spec. unfold SFeqb.
  now rewrite (SFcompare_refl _ H).
Qed.

Lemma SFcompare_some (x y : spec_float) (c : comparison) :
  SFcompare x y = Some c -> x <> S754_nan /\ y <> S754_nan.
Proof.
  destruct x, y; cbn; try discriminate; intros _; split; discriminate.
Qed.

Lemma eqb_not_nan (x y : float) :
  (x =? y)%float = true -> is_nan x = false /\ is_nan y = false.
Proof.
  rewrite eqb_spec. unfold SFeqb.
  destruct (SFcompare (Prim2SF x) (Prim2SF y)) as [c|] eqn:E; try discriminate.
  intros _. apply SFcompare_some in E. destruct E. split; now apply SF_not_nan.
Qed.

Lemma ltb_not_nan (x y : float) :
  (x <? y)%float = true -> is_nan x = false /\ is_nan y = false.
Proof.
  rewrite ltb_spec. unfold SFltb.
  destruct (SFcompare (Prim2SF x) (Prim2SF y)) as [c|] eqn:E; try discriminate.
  intros _. apply SFcompare_some in E. destruct E. split; now apply SF_not_nan.
Qed.

Lemma tied_not_ltb (x z k : float) :
  (x =? k)%float = true -> (z =? k)%float = true -> (x <? z)%float = false.
Proof.
  rewrite !eqb_spec, ltb_spec. unfold SFeqb, SFltb.
  destruct (SFcompare (Prim2SF x) (Prim2SF k)) as [[]|] eqn:E1; try discriminate.
  destruct (SFcompare (Prim2SF z) (Prim2SF k)) as [[]|] eqn:E2; try discriminate.
  intros _ _.
  apply SFcompare_Eq in E1. apply SFcompare_Eq in E2.
  destruct E1 as [E1|(s1 & s2 & E1 & E1')], E2 as [E2|(s3 & s4 & E2 & E2')].
  - rewrite E1, E2.
    destruct (SFcompare (Prim2SF k) (Prim2SF k)) as [[]|] eqn:E; try reflexivity.
    pose proof (SFcompare_antisym (Prim2SF k) (Prim2SF k)) as A.
    rewrite E in A. cbn in A. discriminate.
  - rewrite E1, E2, E2'. reflexivity.
  - rewrite E1, E2 in *. rewrite E1'. reflexivity.
  - rewrite E1, E2. reflexivity.
Qed.

Lemma np_lt_asym (x y : float) : np_lt x y = true -> np_lt y x = false.
Proof.
  unfold np_lt. intros H.
  apply orb_true_iff in H. destruct H as [H|H].
  - rewrite (ltb_asym _ _ H).
    destruct (ltb_not_nan _ _ H) as [Hx Hy]. now rewrite Hx.
  - apply andb_true_iff in H. destruct H as [Hy Hx].
    apply negb_true_iff in Hx. rewrite Hx, Hy, andb_false_r, orb_false_r.
    destruct (y <? x)%float eqn:E; [|reflexivity].
    destruct (ltb_not_nan _ _ E) as [Hy' _]. congruence.
Qed.

Lemma eqb_zero_SF (x : float) :
  (x =? 0)%float = true -> exists s, Prim2SF x = S754_zero s.
Proof.
  rewrite eqb_spec. unfold SFeqb.
  change (Prim2SF 0) with (S754_zero false).
  destruct (Prim2SF x) as [s|s| |s m e]; cbn; try discriminate; eauto.
  all: destruct s; discriminate.
Qed.

Lemma mul_zero_l (x y : float) :
  (x =? 0)%float = true -> zero_or_nan (Prim2SF (x * y)).
Proof.
  intros H. apply eqb_zero_SF in H. destruct H as [s H].
  rewrite mul_spec, H. unfold SF64mul, zero_or_nan.
  destruct (Prim2SF y); cbn; eauto.
Qed.

Lemma mul_zero_r (x y : float) :
  (y =? 0)%float = true -> zero_or_nan (Prim2SF (x * y)).
Proof.
  intros H. apply eqb_zero_SF in H. destruct H as [s H].
  rewrite mul_spec, H. unfold SF64mul, zero_or_nan.
  destruct (Prim2SF x); cbn; eauto.
Qed.

Lemma div_zero_or_nan (x y : float) :
  zero_or_nan (Prim2SF y) -> finite (x / y) = false.
Proof.
  unfold finite. rewrite div_spec. unfold SF64div.
  intros [H|[s H]]; rewrite H; destruct (Prim2SF x); reflexivity.
Qed.

Lemma cos_sim_zero_norm (q d : list float) :
  (SemanticVectorStore.norm q =? 0)%float = true \/
  (SemanticVectorStore.norm d =? 0)%float = true ->
  finite (SemanticVectorStore.cos_sim q d) = false.
Proof.
  intros H. unfold SemanticVectorStore.cos_sim. apply div_zero_or_nan.
  destruct H as [H|H]; [now apply mul_zero_l | now apply mul_zero_r].
Qed.

(** ** The order numpy sorts by *)

Lemma SFleb_trans (x y z : spec_float) :
  SFleb x y = true -> SFleb y z = true -> SFleb x z = true.
Proof.
  unfold SFleb.
  destruct x as [sx|sx| |sx mx ex], y as [sy|sy| |sy my ey], z as [sz|sz| |sz mz ez];
    cbn; try congruence;
    try (destruct sx; cbn; congruence);
    try (destruct sy; cbn; congruence);
    try (destruct sz; cbn; congruence);
    try (destruct sx, sy; cbn; congruence);
    try (destruct sy, sz; cbn; congruence);
    try (destruct sx, sz; cbn; congruence);
    try (destruct sx, sy, sz; cbn; congruence).
  change (Pos.compare_cont Eq mx my) with (Pos.compare mx my).
  change (Pos.compare_cont Eq my mz) with (Pos.compare my mz).
  change (Pos.compare_cont Eq mx mz) with (Pos.compare mx mz).
  destruct sx, sy, sz; cbn; try congruence;
    destruct (Z.compare_spec ex ey), (Z.compare_spec ey ez), (Z.compare_spec ex ez);
    cbn; try congruence; try lia;
    destruct (Pos.compare_spec mx my), (Pos.compare_spec my mz), (Pos.compare_spec mx mz);
    cbn; try congruence; try lia.
Qed.

Lemma leb_not_ltb (x y : float) : (x <=? y)%float = true -> (y <? x)%float = false.
Proof.
  rewrite leb_spec, ltb_spec. unfold SFleb, SFltb.
  rewrite (SFcompare_antisym (Prim2SF x) (Prim2SF y)).
  destruct (SFcompare (Prim2SF x) (Prim2SF y)) as [[]|]; cbn; congruence.
Qed.

Lemma leb_trans (x y z : float) :
  (x <=? y)%float = true -> (y <=? z)%float = true -> (x <=? z)%float = true.
Proof. rewrite !leb_spec. apply SFleb_trans. Qed.

Lemma leb_not_nan (x y : float) :
  (x <=? y)%float = true -> is_nan x = false /\ is_nan y = false.
Proof.
  rewrite leb_spec. unfold SFleb.
  destruct (SFcompare (Prim2SF x) (Prim2SF y)) as [c|] eqn:E; try discriminate.
  intros _. apply SFcompare_some in E. destruct E. split; now apply SF_not_nan.
Qed.

(** Not being below is transitive in numpy's order. *)
Lemma np_lt_false_trans (x y z : float) :
  np_lt x y = false -> np_lt y z = false -> np_lt x z = false.
Proof.
  unfold np_lt. intros Hxy Hyz.
  apply orb_false_iff in Hxy. destruct Hxy as [Lxy Nxy].
  apply orb_false_iff in Hyz. destruct Hyz as [Lyz Nyz].
  destruct (is_nan z) eqn:Nz.
  - cbn in Nyz. apply negb_false_iff in Nyz. rewrite Nyz in Nxy. cbn in Nxy.
    apply negb_false_iff in Nxy. rewrite Nxy. cbn. rewrite orb_false_r.
    destruct (x <? z)%float eqn:E; [|reflexivity].
    destruct (ltb_not_nan _ _ E). congruence.
  - cbn. rewrite orb_false_r.
    destruct (is_nan x) eqn:Nx.
    + destruct (x <? z)%float eqn:E; [|reflexivity].
      destruct (ltb_not_nan _ _ E). congruence.
    + destruct (is_nan y) eqn:Ny; [cbn in Nxy; discriminate|].
      apply leb_not_ltb. apply (leb_trans z y x); now apply ltb_false_leb.
Qed.

Lemma ltb_false_trans (x y z : float) :
  is_nan x = false -> is_nan y = false -> is_nan z = false ->
  (x <? y)%float = false -> (y <? z)%float = false -> (x <? z)%float = false.
Proof.
  intros Nx Ny Nz Hxy Hyz.
  apply leb_not_ltb. apply (leb_trans z y x); now apply ltb_false_leb.
Qed.

(** ** Insertion sort *)

Section SortingFacts.

Context {A : Type} (lt : A -> A -> bool).

Lemma insertion_sort_sifted (l : list A) : insertion_sort lt l = rev (sifted lt l).
Proof. reflexivity. Qed.

Lemma sorted_reverse_sifted (l : list A) : sorted_reverse lt l = sifted lt (rev l).
Proof. unfold sorted_reverse. rewrite insertion_sort_sifted. apply rev_involutive. Qed.

Lemma sift_perm (x : A) (acc : list A) : Permutation (sift lt x acc) (x :: acc).
Proof.
  induction acc as [|y acc IH]; cbn; [reflexivity|].
  destruct (lt x y); [|reflexivity].
  rewrite IH. apply perm_swap.
Qed.

Lemma fold_sift_perm (l acc : list A) :
  Permutation (fold_left (fun acc x => sift lt x acc) l acc) (rev l ++ acc).
Proof.
  revert acc. induction l as [|x l IH]; intros acc; cbn; [reflexivity|].
  rewrite IH, sift_perm, <- app_assoc. cbn.
  apply Permutation_app_head. reflexivity.
Qed.

Lemma sifted_perm (l : list A) : Permutation (sifted lt l) l.
Proof.
  unfold sifted. rewrite fold_sift_perm, app_nil_r. symmetry. apply Permutation_rev.
Qed.

Lemma sifted_length (l : list A) : length (sifted lt l) = length l.
Proof. apply Permutation_length, sifted_perm. Qed.

Hypothesis lt_asym : forall x y, lt x y = true -> lt y x = false.

Lemma sift_hd (x y : A) (acc : list A) :
  (not_below lt) y x -> HdRel (not_below lt) y acc -> HdRel (not_below lt) y (sift lt x acc).
Proof.
  intros Hyx Hy. destruct acc as [|z acc]; cbn.
  - constructor. exact Hyx.
  - destruct (lt x z); constructor; [now inversion Hy | exact Hyx].
Qed.

Lemma sift_sorted (x : A) (acc : list A) :
  Sorted (not_below lt) acc -> Sorted (not_below lt) (sift lt x acc).
Proof.
  induction acc as [|y acc IH]; intros Hs; cbn.
  - repeat constructor.
  - destruct (lt x y) eqn:E.
    + inversion Hs; subst. constructor; [now apply IH|].
      apply sift_hd; [now apply lt_asym | assumption].
    + constructor; [assumption|]. constructor. exact E.
Qed.

Lemma fold_sift_sorted (l acc : list A) :
  Sorted (not_below lt) acc ->
  Sorted (not_below lt) (fold_left (fun acc x => sift lt x acc) l acc).
Proof.
  revert acc. induction l as [|x l IH]; intros acc Hs; cbn; [assumption|].
  apply IH, sift_sorted, Hs.
Qed.

Lemma sifted_sorted (l : list A) : Sorted (not_below lt) (sifted lt l).
Proof. apply fold_sift_sorted. constructor. Qed.

End SortingFacts.

(** Stability: among the elements of one class that [lt] does not
    separate, the one that went in last lies first. *)
Section Stability.

Context {A : Type} (lt : A -> A -> bool) (same : A -> bool).

Hypothesis same_not_lt : forall x z, same x = true -> same z = true -> lt x z = false.

Lemma sift_filter (x : A) (acc : list A) :
  filter same (sift lt x acc) = filter same (x :: acc).
Proof.
  induction acc as [|y acc IH]; [reflexivity|].
  cbn [sift]. destruct (lt x y) eqn:E; [|reflexivity].
  cbn [filter] in *. rewrite IH.
  destruct (same x) eqn:Hx; [|reflexivity].
  destruct (same y) eqn:Hy; [|reflexivity].
  rewrite (same_not_lt x y Hx Hy) in E. discriminate.
Qed.

Lemma fold_sift_filter (l acc : list A) :
  filter same (fold_left (fun acc x => sift lt x acc) l acc)
  = rev (filter same l) ++ filter same acc.
Proof.
  revert acc. induction l as [|x l IH]; intros acc; [reflexivity|].
  cbn [fold_left]. rewrite IH, sift_filter. cbn [filter].
  destruct (same x); cbn [rev]; [now rewrite <- app_assoc | reflexivity].
Qed.

Lemma sifted_filter (l : list A) :
  filter same (sifted lt l) = rev (filter same l).
Proof. unfold sifted. rewrite fold_sift_filter. apply app_nil_r. Qed.

Lemma filter_rev (l : list A) : filter same (rev l) = rev (filter same l).
Proof.
  induction l as [|x l IH]; [reflexivity|].
  cbn. rewrite filter_app, IH. cbn. destruct (same x); cbn; [reflexivity|apply app_nil_r].
Qed.

Lemma sorted_reverse_stable (l : list A) :
  filter same (sorted_reverse lt l) = filter same l.
Proof.
  rewrite sorted_reverse_sifted, sifted_filter, filter_rev. apply rev_involutive.
Qed.

End Stability.

(** ** Lists *)

Lemma Sorted_map {A B} (R : B -> B -> Prop) (f : A -> B) (l : list A) :
  Sorted (fun x y => R (f x) (f y)) l -> Sorted R (map f l).
Proof.
  induction 1 as [|x l Hs IH Hh]; cbn; constructor; [assumption|].
  destruct Hh; cbn; constructor. assumption.
Qed.

Lemma Sorted_firstn {A} (R : A -> A -> Prop) (n : nat) (l : list A) :
  Sorted R l -> Sorted R (firstn n l).
Proof.
  revert l. induction n as [|n IH]; intros l Hs; [constructor|].
  destruct l as [|x l]; [constructor|]. cbn.
  inversion Hs; subst. constructor; [now apply IH|].
  destruct l as [|y l]; [destruct n; constructor|].
  destruct n; cbn; constructor. now inversion H2.
Qed.

Lemma Sorted_within {A} (P : A -> Prop) (R R' : A -> A -> Prop) (l : list A) :
  (forall x y, P x -> P y -> R x y -> R' x y) ->
  Forall P l -> Sorted R l -> Sorted R' l.
Proof.
  intros HR HP Hs. induction Hs as [|x l Hs IH Hh]; constructor.
  - apply IH. now inversion HP.
  - inversion HP as [|? ? Px Pl]; subst.
    destruct Hh; constructor. apply HR; [assumption| now inversion Pl |assumption].
Qed.

Lemma slice_to_firstn {A} (k : Z) (l : list A) :
  exists n, slice_to k l = firstn n l.
Proof. unfold slice_to. destruct (k <? 0)%Z; eauto. Qed.

Lemma slice_to_length {A} (k : Z) (l : list A) :
  Z.of_nat (length (slice_to k l)) = slice_length k (Z.of_nat (length l)).
Proof.
  unfold slice_to, slice_length.
  destruct (k <? 0)%Z eqn:E; rewrite length_firstn; [apply Z.ltb_lt in E|apply Z.ltb_ge in E]; lia.
Qed.

(** ** Lists in which every element is related to all later ones *)

Lemma StronglySorted_app {A} (R : A -> A -> Prop) (l1 l2 : list A) :
  StronglySorted R l1 -> StronglySorted R l2 ->
  (forall x y, In x l1 -> In y l2 -> R x y) ->
  StronglySorted R (l1 ++ l2).
Proof.
  intros H1 H2 H12. induction H1 as [|x l1 H1 IH Hx]; [exact H2|].
  cbn. constructor.
  - apply IH. intros a b0 Ha Hb. apply H12; [now right|assumption].
  - apply Forall_app. split; [assumption|].
    apply Forall_forall. intros y Hy. apply H12; [now left|assumption].
Qed.

Lemma StronglySorted_split {A} (R : A -> A -> Prop) (l1 l2 : list A) :
  StronglySorted R (l1 ++ l2) ->
  StronglySorted R l1 /\ StronglySorted R l2 /\
  forall x y, In x l1 -> In y l2 -> R x y.
Proof.
  induction l1 as [|a l1 IH]; cbn; intros H.
  - repeat split; [constructor|assumption|contradiction].
  - inversion H as [|? ? Hs Hf]; subst.
    destruct (IH Hs) as (H1 & H2 & H12).
    apply Forall_app in Hf. destruct Hf as [Hf1 Hf2].
    repeat split; [now constructor|assumption|].
    intros x y [<-|Hx] Hy; [|now apply H12].
    rewrite Forall_forall in Hf2. now apply Hf2.
Qed.

Lemma StronglySorted_rev {A} (R : A -> A -> Prop) (l : list A) :
  StronglySorted R l -> StronglySorted (fun x y => R y x) (rev l).
Proof.
  induction 1 as [|x l Hs IH Hx]; cbn; [constructor|].
  apply StronglySorted_app; [assumption|repeat constructor|].
  intros a b0 Ha [<-|[]]. rewrite Forall_forall in Hx. apply Hx. now apply in_rev.
Qed.

Lemma StronglySorted_firstn {A} (R : A -> A -> Prop) (n : nat) (l : list A) :
  StronglySorted R l -> StronglySorted R (firstn n l).
Proof.
  intros H. rewrite <- (firstn_skipn n l) in H.
  now apply StronglySorted_split in H.
Qed.

Lemma StronglySorted_impl {A} (R R' : A -> A -> Prop) (l : list A) :
  (forall x y, In x l -> In y l -> R x y -> R' x y) ->
  StronglySorted R l -> StronglySorted R' l.
Proof.
  intros HR H. induction H as [|x l Hs IH Hx]; constructor.
  - apply IH. intros a b0 Ha Hb. apply HR; now right.
  - rewrite Forall_forall in *. intros y Hy. apply HR; [now left|now right|now apply Hx].
Qed.

Lemma StronglySorted_map {A B} (R : B -> B -> Prop) (f : A -> B) (l : list A) :
  StronglySorted (fun x y => R (f x) (f y)) l -> StronglySorted R (map f l).
Proof.
  induction 1 as [|x l Hs IH Hx]; cbn; constructor; [assumption|].
  rewrite Forall_forall in *. intros y Hy.
  apply in_map_iff in Hy as (a & <- & Ha). now apply Hx.
Qed.

Lemma StronglySorted_slice_to {A} (R : A -> A -> Prop) (k : Z) (l : list A) :
  StronglySorted R l -> StronglySorted R (slice_to k l).
Proof. destruct (slice_to_firstn k l) as [n ->]. apply StronglySorted_firstn. Qed.

Lemma NoDup_firstn_of {A} (n : nat) (l : list A) : NoDup l -> NoDup (firstn n l).
Proof.
  revert l. induction n as [|n IH]; intros l H; [constructor|].
  destruct l as [|x l]; [constructor|]. cbn.
  inversion H as [|? ? Hx Hl]; subst. constructor; [|now apply IH].
  intros Hin. apply Hx. rewrite <- (firstn_skipn n l). apply in_or_app. now left.
Qed.

Lemma NoDup_slice_to {A} (k : Z) (l : list A) : NoDup l -> NoDup (slice_to k l).
Proof. destruct (slice_to_firstn k l) as [n ->]. apply NoDup_firstn_of. Qed.

Lemma dense_delete_missing (node_id : string) (st : SemanticVectorStore.state) :
  Dict.mem node_id (SemanticVectorStore.node_dict (SemanticVectorStore.self st)) = false ->
  SemanticVectorStore.delete node_id st =
  (Return tt,
   SemanticVectorStore.mkState (SemanticVectorStore.self st)
     (SemanticVectorStore.objects st)
     (emit (LogError (not_found_message node_id)) (SemanticVectorStore.world st))).
Proof.
  intros H. unfold SemanticVectorStore.delete. run. now rewrite H.
Qed.

(** ** Rebuilding the statistics of the sparse engine *)

Lemma index_corpus_size (corpus : list (list string)) (l : SparseVectorStore.locals) :
  corpus_size (SparseVectorStore.loc_assets (fold_left SparseVectorStore.index_document corpus l))
  = (corpus_size (SparseVectorStore.loc_assets l) + Z.of_nat (length corpus))%Z.
Proof.
  revert l. induction corpus as [|d corpus IH]; intros l.
  - cbn. lia.
  - cbn [fold_left length]. rewrite IH. cbn. lia.
Qed.

Lemma rebuild_nonempty (tokenize : string -> list string) (ln : float -> float)
    (st : SparseVectorStore.state) :
  SparseVectorStore.node_dict (SparseVectorStore.self st) <> [] ->
  SparseVectorStore._initialize_bm25_assets tokenize ln st =
  (Return tt,
   let a := built ln (corpus_of tokenize (SparseVectorStore.self st)) in
   let path := SparseVectorStore.metadata_file (SparseVectorStore.self st) in
   SparseVectorStore.mkState
     (SparseVectorStore.set_assets a (SparseVectorStore.self st))
     (emit (WroteJson path a)
        (write_file path (JsonFile a) (SparseVectorStore.world st)))).
Proof.
  intros Hne.
  unfold SparseVectorStore._initialize_bm25_assets, SparseVectorStore._initialize,
    SparseVectorStore.update_self, SparseVectorStore.update_world.
  run.
  fold (corpus_of tokenize (SparseVectorStore.self st)).
  set (corpus := corpus_of tokenize (SparseVectorStore.self st)).
  assert (Hlen : corpus <> []).
  { unfold corpus, corpus_of, SparseVectorStore._tokenize_text, Dict.values.
    destruct (SparseVectorStore.node_dict (SparseVectorStore.self st)); [congruence|discriminate]. }
  pose proof (index_corpus_size corpus
                (SparseVectorStore.mkLocals [] 0 SparseVectorStore.no_assets)) as Hsz.
  cbn [SparseVectorStore.loc_assets SparseVectorStore.no_assets corpus_size] in Hsz.
  destruct (corpus_size _ =? 0)%Z eqn:E.
  - apply Z.eqb_eq in E. destruct corpus; [congruence|]. cbn [length] in Hsz. lia.
  - run. reflexivity.
Qed.

Lemma rebuild_empty (tokenize : string -> list string) (ln : float -> float)
    (st : SparseVectorStore.state) :
  SparseVectorStore.node_dict (SparseVectorStore.self st) = [] ->
  SparseVectorStore._initialize_bm25_assets tokenize ln st =
  (Raise ZeroDivisionError,
   SparseVectorStore.mkState
     (SparseVectorStore.set_assets SparseVectorStore.no_assets (SparseVectorStore.self st))
     (SparseVectorStore.world st)).
Proof.
  intros He.
  unfold SparseVectorStore._initialize_bm25_assets, SparseVectorStore._initialize,
    SparseVectorStore.update_self, SparseVectorStore.update_world.
  run. rewrite He. cbn. reflexivity.
Qed.

Lemma sparse_update_csv_self (st : SparseVectorStore.state) :
  fst (SparseVectorStore._update_csv st) = Return tt /\
  SparseVectorStore.self (snd (SparseVectorStore._update_csv st))
  = SparseVectorStore.self st.
Proof.
  unfold SparseVectorStore._update_csv.
  destruct (SparseVectorStore.persist (SparseVectorStore.self st)); auto.
Qed.

Lemma sparse_get_present (text_id : string) (node : TextNode)
    (st : SparseVectorStore.state) :
  Dict.get text_id (SparseVectorStore.node_dict (SparseVectorStore.self st)) = Some node ->
  SparseVectorStore.get text_id st = (Return (Some node), st).
Proof.
  intros H. unfold SparseVectorStore.get. run. now rewrite H.
Qed.

Lemma sparse_get_missing (text_id : string) (st : SparseVectorStore.state) :
  Dict.get text_id (SparseVectorStore.node_dict (SparseVectorStore.self st)) = None ->
  SparseVectorStore.get text_id st =
  (Return None,
   SparseVectorStore.mkState (SparseVectorStore.self st)
     (emit (LogError (not_found_message text_id)) (SparseVectorStore.world st))).
Proof.
  intros H. unfold SparseVectorStore.get, SparseVectorStore.logger,
    SparseVectorStore.update_world. run. now rewrite H.
Qed.

Lemma sparse_add_one (tokenize : string -> list string) (ln : float -> float)
    (node : TextNode) (st : SparseVectorStore.state) :
  let st' := snd (SparseVectorStore.add tokenize ln [node] st) in
  fst (SparseVectorStore.add tokenize ln [node] st) = Return [id_ node] /\
  SparseVectorStore.get (id_ node) st' = (Return (Some node), st').
Proof.
  cbv zeta. unfold SparseVectorStore.add, SparseVectorStore.update_self. run.
  set (st1 := SparseVectorStore.mkState _ _).
  destruct (sparse_update_csv_self st1) as (U1 & U2).
  destruct (SparseVectorStore._update_csv st1) as [o st2].
  run. subst o.
  assert (Hd : SparseVectorStore.node_dict (SparseVectorStore.self st2)
               = Dict.set (id_ node) node
                   (SparseVectorStore.node_dict (SparseVectorStore.self st))).
  { rewrite U2. reflexivity. }
  rewrite rebuild_nonempty by (rewrite Hd; apply dict_set_not_empty).
  run. split; [reflexivity|].
  apply sparse_get_present. cbn. rewrite Hd. apply dict_get_set_same.
Qed.

Lemma sparse_add_nothing (tokenize : string -> list string) (ln : float -> float)
    (st : SparseVectorStore.state) :
  SparseVectorStore.node_dict (SparseVectorStore.self st) = [] ->
  fst (SparseVectorStore.add tokenize ln [] st) = Raise ZeroDivisionError.
Proof.
  intros He. unfold SparseVectorStore.add. run.
  destruct (sparse_update_csv_self st) as (U1 & U2).
  destruct (SparseVectorStore._update_csv st) as [o st2].
  run. subst o.
  rewrite rebuild_empty by (rewrite U2; exact He). reflexivity.
Qed.

Lemma sparse_init_empty (tokenize : string -> list string) (ln : float -> float)
    (st : SparseVectorStore.state) :
  SparseVectorStore.node_dict (SparseVectorStore.self st) = [] ->
  SparseVectorStore.__init__ tokenize ln st = (Return tt, st).
Proof.
  intros He. unfold SparseVectorStore.__init__. run. now rewrite He.
Qed.

(** ** Comprehensions that may raise *)

Lemma map_outcome_returns {A B} (f : A -> outcome B) (xs : list A) (ys : list B) :
  map_outcome f xs = Return ys -> Forall2 (fun x y => f x = Return y) xs ys.
Proof.
  revert ys. induction xs as [|x xs IH]; intros ys; cbn.
  - intros [= <-]. constructor.
  - destruct (f x) eqn:E; [|discriminate].
    destruct (map_outcome f xs); [|discriminate].
    intros [= <-]. constructor; auto.
Qed.

Lemma map_outcome_total {A B} (f : A -> outcome B) (g : A -> B) (xs : list A) :
  (forall x, In x xs -> f x = Return (g x)) -> map_outcome f xs = Return (map g xs).
Proof.
  induction xs as [|x xs IH]; intros H; cbn; [reflexivity|].
  rewrite (H x) by (now left). rewrite IH; [reflexivity|].
  intros y Hy. apply H. now right.
Qed.

Lemma map_outcome_raises {A B} (f : A -> outcome B) (xs : list A) (x : A) (e : exn) :
  In x xs -> f x = Raise e -> exists e', map_outcome f xs = Raise e'.
Proof.
  induction xs as [|y xs IH]; intros Hin Hx; [contradiction|].
  cbn. destruct Hin as [->|Hin].
  - rewrite Hx. eauto.
  - destruct (f y); [|eauto].
    destruct (IH Hin Hx) as [e' ->]. eauto.
Qed.

Lemma map_outcome_raised {A B} (f : A -> outcome B) (xs : list A) (e : exn) :
  map_outcome f xs = Raise e -> exists x, In x xs /\ f x = Raise e.
Proof.
  induction xs as [|y xs IH]; cbn; [discriminate|].
  destruct (f y) eqn:E.
  - destruct (map_outcome f xs); [discriminate|].
    intros [= <-]. destruct (IH eq_refl) as (x & Hin & Hx). eauto.
  - intros [= <-]. eauto.
Qed.

(** ** Positions and their decimal names *)

Lemma str_inj (p q : nat) : str p = str q -> p = q.
Proof.
  unfold str. intros H.
  assert (Hu : Nat.to_uint p = Nat.to_uint q).
  { pose proof (NilEmpty.usu (Nat.to_uint p)) as Hp.
    pose proof (NilEmpty.usu (Nat.to_uint q)) as Hq.
    rewrite H in Hp. congruence. }
  rewrite <- (Unsigned.of_to p), <- (Unsigned.of_to q). now rewrite Hu.
Qed.

Lemma dict_get_nth {V} (k : string) (v : V) (d : Dict.t V) :
  Dict.get k d = Some v -> exists j, nth_error d j = Some (k, v).
Proof.
  induction d as [|[k' v'] d IH]; cbn; [discriminate|].
  destruct (String.eqb k k') eqn:E.
  - apply String.eqb_eq in E. subst k'. intros [= <-]. now exists 0.
  - intros H. destruct (IH H) as [j Hj]. now exists (S j).
Qed.

(** In a map whose keys are the names of the positions, the lookup of
    the name of a position finds the entry at that position. *)
Lemma dict_get_positional {V} (d : Dict.t V) (o p : nat) :
  Dict.keys d = map str (seq o (length d)) ->
  p < length d ->
  Dict.get (str (o + p)) d = nth_error (Dict.values d) p.
Proof.
  revert o p. induction d as [|[k v] d IH]; intros o p Hk Hp; cbn in *; [lia|].
  injection Hk as Hk0 Hk.
  destruct p as [|p].
  - rewrite Nat.add_0_r, <- Hk0, String.eqb_refl. reflexivity.
  - destruct (String.eqb (str (o + S p)) k) eqn:E.
    + apply String.eqb_eq in E. rewrite Hk0 in E. apply str_inj in E. lia.
    + cbn. replace (o + S p) with (S o + p) by lia. apply IH; [assumption|lia].
Qed.

Lemma map_fst_combine {A B} (l : list A) (l' : list B) :
  length l = length l' -> map fst (combine l l') = l.
Proof.
  revert l'. induction l as [|x l IH]; intros [|y l'] H; cbn in *; try lia; [reflexivity|].
  f_equal. apply IH. lia.
Qed.

Lemma map_snd_combine {A B} (l : list A) (l' : list B) :
  length l = length l' -> map snd (combine l l') = l'.
Proof.
  revert l'. induction l as [|x l IH]; intros [|y l'] H; cbn in *; try lia; [reflexivity|].
  f_equal. apply IH. lia.
Qed.

(** ** Scores of the sparse engine *)

Lemma iadd_length (score term score' : list float) :
  iadd score term = Return score' -> length score' = length score.
Proof.
  unfold iadd. destruct (Nat.eqb (length term) (length score)) eqn:E.
  - apply Nat.eqb_eq in E. intros [= <-].
    rewrite length_map, length_combine. lia.
  - destruct term as [|x [|]]; try discriminate.
    intros [= <-]. apply length_map.
Qed.

Lemma score_tokens_length (s : SparseVectorStore.t) (tokens : list string)
    (score score' : list float) :
  SparseVectorStore.score_tokens s score tokens = Return score' ->
  length score' = length score.
Proof.
  revert score. induction tokens as [|q tokens IH]; intros score; cbn.
  - now intros [= <-].
  - destruct (SparseVectorStore.score_token s score q) as [score1|] eqn:E; [|discriminate].
    intros H. rewrite (IH _ H).
    unfold SparseVectorStore.score_token in E.
    destruct (broadcast2 _ _ _); [|discriminate].
    now apply iadd_length in E.
Qed.

Lemma get_scores_length (tokenize : string -> list string)
    (s : SparseVectorStore.t) (query : string) (scores : list float) :
  SparseVectorStore.get_scores tokenize s query = Return scores ->
  length scores = Z.to_nat (corpus_size (SparseVectorStore.assets s)).
Proof.
  unfold SparseVectorStore.get_scores, np_zeros.
  destruct (corpus_size (SparseVectorStore.assets s) <? 0)%Z; [discriminate|].
  intros H. apply score_tokens_length in H. now rewrite H, repeat_length.
Qed.

Lemma combine_seq_nth (scores : list float) (o : nat) (p : nat * float) :
  In p (combine (seq o (length scores)) scores) ->
  o <= fst p < o + length scores /\ nth (fst p - o) scores 0%float = snd p.
Proof.
  revert o. induction scores as [|s scores IH]; intros o; cbn; [contradiction|].
  intros [<-|Hin]; cbn.
  - rewrite Nat.sub_diag. split; [lia|reflexivity].
  - destruct (IH _ Hin) as [Hr Hn]. split; [lia|].
    replace (fst p - o) with (S (fst p - S o)) by lia. exact Hn.
Qed.

Lemma in_slice_to {A} (k : Z) (l : list A) (x : A) : In x (slice_to k l) -> In x l.
Proof.
  destruct (slice_to_firstn k l) as [n ->]. intros H.
  rewrite <- (firstn_skipn n l). apply in_or_app. now left.
Qed.

Lemma slice_to_map {A B} (f : A -> B) (k : Z) (l : list A) :
  slice_to k (map f l) = map f (slice_to k l).
Proof.
  unfold slice_to. rewrite length_map. destruct (k <? 0)%Z; apply firstn_map.
Qed.

(** Insertion sort of the positions, whatever order they are taken in,
    keeps the promise of [np.argsort]. *)
Lemma insertion_sort_ascending_positions (scores : list float) (l : list (nat * float)) :
  Permutation l (combine (seq 0 (length scores)) scores) ->
  ascending_positions scores
    (map fst (insertion_sort (fun a b => np_lt (snd a) (snd b)) l)).
Proof.
  intros Hl. rewrite insertion_sort_sifted.
  set (lt := fun a b : nat * float => np_lt (snd a) (snd b)).
  assert (Hp : Permutation (sifted lt l) (combine (seq 0 (length scores)) scores)).
  { now rewrite sifted_perm. }
  split.
  - rewrite map_rev, <- Permutation_rev, (Permutation_map fst Hp).
    rewrite map_fst_combine; [reflexivity|]. now rewrite length_seq.
  - rewrite map_rev.
    apply (StronglySorted_rev
             (fun i j => np_lt (nth i scores 0%float) (nth j scores 0%float) = false)).
    apply StronglySorted_map.
    apply StronglySorted_impl with (R := fun a b => np_lt (snd a) (snd b) = false).
    + intros x y Hx Hy H. cbn beta.
      apply (Permutation_in _ Hp) in Hx. apply (Permutation_in _ Hp) in Hy.
      apply combine_seq_nth in Hx. apply combine_seq_nth in Hy.
      rewrite Nat.sub_0_r in Hx, Hy.
      destruct Hx as [_ ->], Hy as [_ ->]. exact H.
    + apply Sorted_StronglySorted.
      * intros x y z Hxy Hyz. exact (np_lt_false_trans _ _ _ Hxy Hyz).
      * apply (sifted_sorted lt). intros x y. apply np_lt_asym.
Qed.

Lemma example_argsort_numpy : numpy_argsort Example.argsort.
Proof.
  intros scores. now apply insertion_sort_ascending_positions.
Qed.

Lemma example_argsort_from_the_end_numpy : numpy_argsort Example.argsort_from_the_end.
Proof.
  intros scores. apply insertion_sort_ascending_positions.
  symmetry. apply Permutation_rev.
Qed.

(** ** What follows from the promise of [np.argsort] *)

Section NumpySort.

Variable argsort : list float -> list nat.

Hypothesis argsort_numpy : numpy_argsort argsort.

Lemma argsort_length (scores : list float) : length (argsort scores) = length scores.
Proof.
  destruct (argsort_numpy scores) as [Hp _].
  rewrite (Permutation_length Hp). apply length_seq.
Qed.

Lemma ranking_perm (scores : list float) :
  Permutation (rev (argsort scores)) (seq 0 (length scores)).
Proof.
  destruct (argsort_numpy scores) as [Hp _]. now rewrite <- Permutation_rev.
Qed.

Lemma ranking_descending (scores : list float) :
  StronglySorted
    (fun p q => np_lt (nth p scores 0%float) (nth q scores 0%float) = false)
    (rev (argsort scores)).
Proof.
  destruct (argsort_numpy scores) as [_ Hs].
  exact (StronglySorted_rev _ _ Hs).
Qed.

Lemma top_positions_in_range (top_k : Z) (scores : list float) (p : nat) :
  In p (slice_to top_k (rev (argsort scores))) -> p < length scores.
Proof.
  intros H. apply in_slice_to in H.
  apply (Permutation_in _ (ranking_perm scores)) in H. apply in_seq in H. lia.
Qed.

Lemma top_positions_distinct (top_k : Z) (scores : list float) :
  NoDup (slice_to top_k (rev (argsort scores))).
Proof.
  apply NoDup_slice_to.
  apply (Permutation_NoDup (l := seq 0 (length scores))); [|apply seq_NoDup].
  symmetry. apply ranking_perm.
Qed.

Lemma top_positions_count (top_k : Z) (scores : list float) :
  Z.of_nat (length (slice_to top_k (rev (argsort scores))))
  = slice_length top_k (Z.of_nat (length scores)).
Proof. now rewrite slice_to_length, length_rev, argsort_length. Qed.

(** The positions [query] looks up are the best scoring ones. *)
Lemma top_positions_top_scoring (top_k : Z) (scores : list float) :
  top_scoring scores top_k (slice_to top_k (rev (argsort scores))).
Proof.
  split; [apply top_positions_distinct|].
  split; [apply top_positions_count|].
  split; [intros p; apply top_positions_in_range|].
  intros p q Hp Hq Hn.
  destruct (slice_to_firstn top_k (rev (argsort scores))) as [n E].
  rewrite E in Hp, Hn.
  pose proof (ranking_descending scores) as Hs.
  rewrite <- (firstn_skipn n (rev (argsort scores))) in Hs.
  apply StronglySorted_split in Hs. destruct Hs as (_ & _ & Hs).
  apply Hs; [exact Hp|].
  assert (Hin : In q (rev (argsort scores))).
  { apply (Permutation_in _ (Permutation_sym (ranking_perm scores))).
    apply in_seq. lia. }
  rewrite <- (firstn_skipn n (rev (argsort scores))) in Hin.
  apply in_app_or in Hin. destruct Hin; [contradiction|assumption].
Qed.

End NumpySort.

(** [query], one step at a time *)
Lemma sparse_query_unfold (tokenize : string -> list string)
    (argsort : list float -> list nat)
    (query : string) (top_k : Z) (st : SparseVectorStore.state) :
  SparseVectorStore.query tokenize argsort query top_k st =
  match SparseVectorStore.get_scores tokenize (SparseVectorStore.self st) query with
  | Raise e => (Raise e, st)
  | Return scores =>
      let doc_ids := slice_to top_k (rev (argsort scores)) in
      match map_outcome
              (fun doc_id => Dict.item (str doc_id)
                               (SparseVectorStore.node_dict (SparseVectorStore.self st)))
              doc_ids with
      | Raise e => (Raise e, st)
      | Return nodes =>
          (Return (mkResult nodes
                     (map (fun doc_id => nth doc_id scores 0%float) doc_ids) doc_ids),
           st)
      end
  end.
Proof.
  unfold SparseVectorStore.query, SparseVectorStore.lift. run.
  destruct (SparseVectorStore.get_scores _ _ _); [|reflexivity].
  destruct (map_outcome _ _); reflexivity.
Qed.

Lemma map_outcome_all {A B} (f : A -> outcome B) (xs : list A) :
  (forall x, In x xs -> exists y, f x = Return y) ->
  exists ys, map_outcome f xs = Return ys.
Proof.
  induction xs as [|x xs IH]; intros H; cbn; [eauto|].
  destruct (H x (or_introl eq_refl)) as [y ->].
  destruct IH as [ys ->]; [intros z Hz; apply H; now right|]. eauto.
Qed.

Lemma dict_item_get {V} (k : string) (d : Dict.t V) (v : V) :
  Dict.item k d = Return v <-> Dict.get k d = Some v.
Proof.
  unfold Dict.item. destruct (Dict.get k d); split; intros H; congruence.
Qed.


(** ** Similarities of the dense engine *)

Lemma calculate_similarity_conforming (query_embedding : list float)
    (doc_embeddings : list (option (list float))) (doc_ids : list string) (top_k : Z) :
  doc_embeddings <> [] ->
  conforming (length query_embedding) doc_embeddings ->
  length doc_ids <= length doc_embeddings ->
  SemanticVectorStore._calculate_similarity query_embedding doc_embeddings doc_ids top_k
  = let sorted_tups :=
      slice_to top_k
        (sorted_reverse by_similarity (candidates query_embedding doc_embeddings doc_ids)) in
    Return (map fst sorted_tups, map snd sorted_tups).
Proof.
  intros Hne Hc Hl. unfold SemanticVectorStore._calculate_similarity.
  destruct doc_embeddings as [|e0 rest] eqn:Ed; [congruence|]. rewrite <- Ed in *.
  rewrite (map_outcome_total _ row_of).
  - rewrite !length_map.
    replace (Nat.ltb (length doc_embeddings) (length doc_ids)) with false
      by (symmetry; apply Nat.ltb_ge; exact Hl).
    unfold candidates. now rewrite map_map.
  - intros e Hin. unfold conforming in Hc. rewrite Forall_forall in Hc.
    destruct (Hc e Hin) as (v & -> & Hv). cbn. now rewrite Hv, Nat.eqb_refl.
Qed.

Lemma dict_get_key {V} (k : string) (d : Dict.t V) :
  In k (Dict.keys d) -> exists v, Dict.get k d = Some v.
Proof.
  induction d as [|[k' v'] d IH]; cbn; [contradiction|].
  intros [->|Hin].
  - rewrite String.eqb_refl. eauto.
  - destruct (String.eqb k k'); eauto.
Qed.

Lemma dense_query_empty (embed : string -> list float) (query : string) (top_k : Z)
    (st : SemanticVectorStore.state) :
  SemanticVectorStore.node_dict (SemanticVectorStore.self st) = [] ->
  SemanticVectorStore.query embed query top_k st =
  (Return (mkResult [] [] []),
   SemanticVectorStore.mkState (SemanticVectorStore.self st)
     (SemanticVectorStore.objects st)
     (emit (LogError "No documents found in the index.") (SemanticVectorStore.world st))).
Proof.
  intros He. unfold SemanticVectorStore.query, SemanticVectorStore.logger. run.
  rewrite He. reflexivity.
Qed.

Lemma dense_query_conforming (embed : string -> list float) (query : string) (top_k : Z)
    (st : SemanticVectorStore.state) :
  let d := SemanticVectorStore.node_dict (SemanticVectorStore.self st) in
  d <> [] ->
  conforming (length (embed query)) (doc_embeddings_of st) ->
  exists result_nodes,
    let sorted_tups :=
      slice_to top_k
        (sorted_reverse by_similarity
           (candidates (embed query) (doc_embeddings_of st) (Dict.keys d))) in
    SemanticVectorStore.query embed query top_k st
    = (Return (mkResult result_nodes (map fst sorted_tups) (map snd sorted_tups)), st)
    /\ Forall2 (fun node_id node => Dict.get node_id d = Some node)
         (map snd sorted_tups) result_nodes.
Proof.
  intros d Hne Hc.
  assert (Hne' : doc_embeddings_of st <> []).
  { unfold doc_embeddings_of, Dict.values. fold d. destruct d; [congruence|discriminate]. }
  set (sorted_tups := slice_to top_k _).
  destruct (map_outcome_all (fun node_id => Dict.item node_id d) (map snd sorted_tups))
    as [ns E].
  { intros k Hin.
    assert (Hk : In k (Dict.keys d)).
    { unfold sorted_tups in Hin. rewrite <- slice_to_map in Hin.
      apply in_slice_to in Hin. apply in_map_iff in Hin as ([s k'] & <- & Hin).
      rewrite sorted_reverse_sifted in Hin.
      apply (Permutation_in _ (sifted_perm _ _)) in Hin.
      apply in_rev in Hin. unfold candidates in Hin.
      now apply in_combine_r in Hin. }
    destruct (dict_get_key k d Hk) as [v Hv].
    exists v. now apply dict_item_get. }
  exists ns. split.
  - unfold SemanticVectorStore.query, SemanticVectorStore.lift,
      SemanticVectorStore._get_text_embedding. run.
    fold (doc_embeddings_of st). fold d.
    assert (Hl : length (Dict.keys d) <= length (doc_embeddings_of st)).
    { unfold doc_embeddings_of, Dict.keys, Dict.values. fold d. now rewrite !length_map. }
    pose proof (calculate_similarity_conforming (embed query) _ (Dict.keys d) top_k Hne' Hc Hl)
      as Hsim.
    fold sorted_tups in Hsim. cbv zeta in Hsim.
    destruct (doc_embeddings_of st) as [|e0 rest]; [congruence|].
    rewrite Hsim. cbn [fst snd]. rewrite E. reflexivity.
  - apply map_outcome_returns in E. eapply Forall2_impl; [|exact E].
    intros a b0 H. now apply dict_item_get.
Qed.

(** ** Ranked results *)

Lemma not_below_non_increasing (scores : list float) :
  no_nan scores ->
  Sorted (fun a b => (a <? b)%float = false) scores -> non_increasing scores.
Proof.
  intros Hn Hs. unfold non_increasing.
  eapply Sorted_within with (P := fun s => is_nan s = false); [|exact Hn|exact Hs].
  intros x y Hx Hy H. now apply ltb_false_leb.
Qed.

Lemma np_not_below (a b : float) : np_lt a b = false -> (a <? b)%float = false.
Proof. unfold np_lt. intros H. now apply orb_false_iff in H. Qed.

Lemma sorted_reverse_sorted (c : list (float * string)) :
  Sorted (fun a b => (fst a <? fst b)%float = false) (sorted_reverse by_similarity c).
Proof.
  rewrite sorted_reverse_sifted. apply (sifted_sorted by_similarity).
  intros x y. apply ltb_asym.
Qed.

(** What the sparse [query] returns, in terms of numpy's ranking *)
Lemma sparse_query_returned (tokenize : string -> list string)
    (argsort : list float -> list nat) (query : string)
    (top_k : Z) (st : SparseVectorStore.state)
    (r : VectorStoreQueryResult TextNode nat) :
  fst (SparseVectorStore.query tokenize argsort query top_k st) = Return r ->
  exists scores,
    SparseVectorStore.get_scores tokenize (SparseVectorStore.self st) query = Return scores /\
    ids r = slice_to top_k (rev (argsort scores)) /\
    similarities r = map (fun p => nth p scores 0%float) (ids r) /\
    length (nodes r) = length (ids r).
Proof.
  rewrite sparse_query_unfold.
  destruct (SparseVectorStore.get_scores _ _ _) as [scores|]; [|discriminate].
  cbv zeta. destruct (map_outcome _ _) as [ns|] eqn:E; [|discriminate].
  cbn. intros [= <-]. exists scores. cbn.
  repeat split; try reflexivity.
  apply map_outcome_returns, Forall2_length in E. now symmetry.
Qed.

(** The scores along numpy's ranking never go up. *)
Lemma ranking_scores_sorted (argsort : list float -> list nat) (top_k : Z)
    (scores : list float) :
  numpy_argsort argsort ->
  StronglySorted (fun a b => (a <? b)%float = false)
    (map (fun p => nth p scores 0%float) (slice_to top_k (rev (argsort scores)))).
Proof.
  intros Hsort. apply StronglySorted_map, StronglySorted_slice_to.
  eapply StronglySorted_impl; [|apply (ranking_descending argsort Hsort)].
  intros x y _ _. apply np_not_below.
Qed.

Lemma candidates_length (q : list float) (embs : list (option (list float)))
    (st : SemanticVectorStore.state) :
  length (candidates q (doc_embeddings_of st)
            (Dict.keys (SemanticVectorStore.node_dict (SemanticVectorStore.self st))))
  = length (SemanticVectorStore.node_dict (SemanticVectorStore.self st)).
Proof.
  unfold candidates, doc_embeddings_of, Dict.keys, Dict.values.
  rewrite length_combine, !length_map. lia.
Qed.

(** C7 (amended): the three sequences of a returned result have the same
    length, that of the first [top_k] of the corpus: the smaller of
    [top_k] and the corpus size when [top_k] is not negative.  The scores
    are non-increasing unless one of them is NaN.  The dense query
    returns whenever the stored embeddings have the dimension of the
    query embedding; the statement about the sparse query is about every
    result it returns, whatever order of equal scores [np.argsort]
    chooses. *)
Theorem query_result_length_and_order
    (embed : string -> list float) (tokenize : string -> list string) (top_k : Z) :
  (forall (query : string) (st : SemanticVectorStore.state),
     conforming (length (embed query)) (doc_embeddings_of st) ->
     exists r,
       fst (SemanticVectorStore.query embed query top_k st) = Return r /\
       has_length r
         (slice_length top_k
            (Z.of_nat (length (SemanticVectorStore.node_dict (SemanticVectorStore.self st))))) /\
       (no_nan (similarities r) -> non_increasing (similarities r)))
  /\
  (forall (argsort : list float -> list nat) (query : string)
          (st : SparseVectorStore.state) r,
     numpy_argsort argsort ->
     fst (SparseVectorStore.query tokenize argsort query top_k st) = Return r ->
     has_length r
       (slice_length top_k (corpus_size (SparseVectorStore.assets (SparseVectorStore.self st)))) /\
     (no_nan (similarities r) -> non_increasing (similarities r)))
  /\
  (forall n, (0 <= top_k)%Z -> slice_length top_k n = Z.min top_k n).
Proof.
  split; [|split].
  - intros query st Hc.
    destruct (SemanticVectorStore.node_dict (SemanticVectorStore.self st)) as [|kv d] eqn:Ed.
    + rewrite dense_query_empty by assumption. eexists. split; [reflexivity|].
      split; [|intros _; constructor].
      unfold has_length, slice_length. cbn [nodes similarities ids length].
      destruct (top_k <? 0)%Z eqn:E; [apply Z.ltb_lt in E|apply Z.ltb_ge in E]; lia.
    + destruct (dense_query_conforming embed query top_k st) as (ns & Hq & Hn);
        [rewrite Ed; discriminate | assumption |].
      cbv zeta in Hq, Hn. rewrite Hq. eexists. split; [reflexivity|].
      apply Forall2_length in Hn.
      pose proof (candidates_length (embed query) (doc_embeddings_of st) st) as Hl.
      rewrite <- Ed. split.
      * unfold has_length. cbn [nodes similarities ids]. rewrite <- Hn, !length_map.
        rewrite slice_to_length.
        rewrite sorted_reverse_sifted, sifted_length, length_rev, Hl. auto.
      * cbn [similarities]. intros Hnan. apply not_below_non_increasing; [assumption|].
        apply Sorted_map.
        destruct (slice_to_firstn top_k
                    (sorted_reverse by_similarity
                       (candidates (embed query) (doc_embeddings_of st)
                          (Dict.keys (SemanticVectorStore.node_dict (SemanticVectorStore.self st))))))
          as [n ->].
        apply Sorted_firstn, sorted_reverse_sorted.
  - intros argsort query st r Hsort Hr.
    destruct (sparse_query_returned _ _ _ _ _ _ Hr) as (scores & Hs & Hi & Hsim & Hn).
    pose proof (get_scores_length _ _ _ _ Hs) as Hl.
    assert (Hc : (0 <= corpus_size (SparseVectorStore.assets (SparseVectorStore.self st)))%Z).
    { unfold SparseVectorStore.get_scores, np_zeros in Hs.
      destruct (corpus_size _ <? 0)%Z eqn:E; [discriminate|]. now apply Z.ltb_ge in E. }
    split.
    + unfold has_length. rewrite Hn, Hsim, length_map, Hi.
      rewrite (top_positions_count argsort Hsort), Hl, Z2Nat.id by assumption. auto.
    + rewrite Hsim, Hi. intros Hnan. apply not_below_non_increasing; [assumption|].
      apply StronglySorted_Sorted. now apply ranking_scores_sorted.
  - intros n Hk. unfold slice_length.
    destruct (top_k <? 0)%Z eqn:E; [apply Z.ltb_lt in E; lia|reflexivity].
Qed.

(** ** Order of equal scores *)

Lemma no_nan_perm (l l' : list float) : Permutation l l' -> no_nan l -> no_nan l'.
Proof. unfold no_nan. intros Hp Hn. now rewrite <- Hp. Qed.

(** Without NaN among the keys, what [sorted(..., reverse=True)] returns
    goes down all the way. *)
Lemma sorted_reverse_descending (c : list (float * string)) :
  no_nan (map fst c) ->
  StronglySorted (fun a b => (fst b <=? fst a)%float = true)
    (sorted_reverse by_similarity c).
Proof.
  intros Hn.
  assert (Hp : Permutation c (sorted_reverse by_similarity c)).
  { rewrite sorted_reverse_sifted, sifted_perm. apply Permutation_rev. }
  assert (Hn' : Forall (fun a => is_nan (fst a) = false) (sorted_reverse by_similarity c)).
  { apply (no_nan_perm _ _ (Permutation_map fst Hp)) in Hn.
    unfold no_nan in Hn. rewrite Forall_map in Hn. exact Hn. }
  apply Sorted_StronglySorted.
  - intros x y z Hxy Hyz. exact (leb_trans _ _ _ Hyz Hxy).
  - eapply Sorted_within with (P := fun a => is_nan (fst a) = false);
      [|exact Hn'|apply sorted_reverse_sorted].
    intros x y Hx Hy H. now apply ltb_false_leb.
Qed.


(** ** Zero norms *)

Lemma in_combine_map {A B C} (f : A -> B) (l : list A) (ks : list C) (s : B) (k : C) :
  In (s, k) (combine (map f l) ks) ->
  exists i x, nth_error l i = Some x /\ nth_error ks i = Some k /\ s = f x.
Proof.
  revert ks. induction l as [|x l IH]; intros [|k' ks]; cbn; try contradiction.
  intros [[= <- <-]|Hin].
  - exists 0, x. auto.
  - destruct (IH _ Hin) as (i & y & H1 & H2 & H3). exists (S i), y. auto.
Qed.

Lemma combine_fst_snd {A B} (l : list (A * B)) : combine (map fst l) (map snd l) = l.
Proof. induction l as [|[a b0] l IH]; cbn; congruence. Qed.

(** C2 (amended): the dense query over a store with at least one node,
    all embeddings having the dimension of the query embedding, raises
    nothing, and the similarity returned for a document is the bare
    quotient [dot / (norm_q * norm_d)].  There is no guard: when the
    query embedding or the document embedding has norm zero, the
    returned similarity is NaN or infinite, never a number. *)
Theorem dense_similarity_of_zero_norm_is_not_a_number
    (embed : string -> list float) (query : string) (top_k : Z)
    (st : SemanticVectorStore.state) :
  let d := SemanticVectorStore.node_dict (SemanticVectorStore.self st) in
  d <> [] ->
  conforming (length (embed query)) (doc_embeddings_of st) ->
  exists r,
    SemanticVectorStore.query embed query top_k st = (Return r, st) /\
    Forall (fun c =>
              exists i node doc,
                nth_error d i = Some (snd c, node) /\
                embedding (SemanticVectorStore.objects st node) = Some doc /\
                fst c = SemanticVectorStore.cos_sim (embed query) doc /\
                ((SemanticVectorStore.norm (embed query) =? 0)%float = true \/
                 (SemanticVectorStore.norm doc =? 0)%float = true ->
                 finite (fst c) = false))
      (combine (similarities r) (ids r)).
Proof.
  intros d Hne Hc.
  destruct (dense_query_conforming embed query top_k st Hne Hc) as (ns & Hq & _).
  cbv zeta in Hq. eexists. split; [exact Hq|].
  cbn [similarities ids]. rewrite combine_fst_snd.
  apply Forall_forall. intros [s k] Hin.
  apply in_slice_to in Hin. rewrite sorted_reverse_sifted in Hin.
  apply (Permutation_in _ (sifted_perm _ _)) in Hin. apply in_rev in Hin.
  unfold candidates in Hin. apply in_combine_map in Hin as (i & e & He & Hk & ->).
  unfold doc_embeddings_of, Dict.values, Dict.keys in He, Hk. fold d in He, Hk.
  rewrite !nth_error_map in He. rewrite nth_error_map in Hk.
  destruct (nth_error d i) as [[k' node]|] eqn:Ei; [|discriminate].
  cbn in He, Hk. injection He as <-. injection Hk as ->.
  unfold conforming in Hc. rewrite Forall_forall in Hc.
  destruct (Hc (embedding (SemanticVectorStore.objects st node))) as (doc & Hdoc & _).
  { unfold doc_embeddings_of. apply in_map_iff. exists node. split; [reflexivity|].
    unfold Dict.values. apply in_map_iff. exists (k, node). split; [reflexivity|].
    fold d. eapply nth_error_In; eauto. }
  exists i, node, doc. rewrite Hdoc. cbn [fst snd row_of].
  repeat split; auto. apply cos_sim_zero_norm.
Qed.

(** ** Term statistics of a rebuilt index *)

Lemma freq_cons (q w : string) (d : list string) :
  freq q (w :: d) = ((if String.eqb q w then 1 else 0) + freq q d)%Z.
Proof.
  unfold freq. cbn [count_occ].
  destruct (string_dec w q) as [->|Hne].
  - rewrite String.eqb_refl. lia.
  - destruct (String.eqb q w) eqn:E; [apply String.eqb_eq in E; congruence|lia].
Qed.

Lemma freq_nonneg (q : string) (d : list string) : (0 <= freq q d)%Z.
Proof. unfold freq. lia. Qed.

Lemma count_words_get (d : list string) (f : Dict.t Z) (x : string) :
  Dict.get x (SparseVectorStore.count_words d f)
  = if (freq x d =? 0)%Z then Dict.get x f
    else Some (or_default (Dict.get x f) + freq x d)%Z.
Proof.
  revert f. induction d as [|w d IH]; intros f.
  - reflexivity.
  - cbn [SparseVectorStore.count_words]. rewrite IH, freq_cons.
    pose proof (freq_nonneg x d) as Hd.
    set (f1 := if Dict.mem w f then f else Dict.set w 0%Z f).
    assert (H1 : Dict.get w f1 = Some (or_default (Dict.get w f))).
    { unfold f1, Dict.mem. destruct (Dict.get w f) eqn:G; [exact G|].
      apply dict_get_set_same. }
    assert (H1' : forall y, y <> w -> Dict.get y f1 = Dict.get y f).
    { intros y Hy. unfold f1. destruct (Dict.mem w f); [reflexivity|].
      now apply dict_get_set_other. }
    rewrite H1.
    destruct (String.eqb x w) eqn:E.
    + apply String.eqb_eq in E. subst x. rewrite dict_get_set_same. cbn [or_default].
      destruct (Z.eqb_spec (freq w d) 0), (Z.eqb_spec (1 + freq w d) 0);
        try lia; f_equal; lia.
    + assert (Hne : x <> w) by (intros ->; rewrite String.eqb_refl in E; discriminate).
      rewrite dict_get_set_other, H1' by assumption.
      rewrite Z.add_0_l. reflexivity.
Qed.

Lemma freq_or_zero_count_words (q : string) (d : list string) :
  SparseVectorStore.freq_or_zero q (SparseVectorStore.count_words d []) = freq q d.
Proof.
  unfold SparseVectorStore.freq_or_zero. rewrite count_words_get. cbn [Dict.get or_default].
  destruct (freq q d =? 0)%Z eqn:E; [apply Z.eqb_eq in E; lia|].
  now rewrite Z.add_0_l, E.
Qed.

(** Keys of a dictionary are pairwise different. *)
Lemma dict_set_keys_nodup {V} (k : string) (v : V) (d : Dict.t V) :
  NoDup (Dict.keys d) -> NoDup (Dict.keys (Dict.set k v d)).
Proof.
  intros Hn. induction d as [|[k' v'] d IH]; cbn.
  - constructor; [intros []|constructor].
  - destruct (String.eqb k k') eqn:E; cbn; [exact Hn|].
    inversion Hn as [|? ? Hnotin Hn']; subst. constructor; [|now apply IH].
    intros Hin. apply Hnotin.
    clear -Hin E. induction d as [|[k2 v2] d IH]; cbn in *.
    + destruct Hin as [->|[]]. rewrite String.eqb_refl in E. discriminate.
    + destruct (String.eqb k k2); cbn in Hin; destruct Hin; auto.
Qed.

Lemma count_words_keys_nodup (d : list string) (f : Dict.t Z) :
  NoDup (Dict.keys f) -> NoDup (Dict.keys (SparseVectorStore.count_words d f)).
Proof.
  revert f. induction d as [|w d IH]; intros f Hn; [exact Hn|].
  cbn [SparseVectorStore.count_words]. apply IH.
  set (f1 := if Dict.mem w f then f else Dict.set w 0%Z f).
  assert (NoDup (Dict.keys f1)).
  { unfold f1. destruct (Dict.mem w f); [assumption|now apply dict_set_keys_nodup]. }
  destruct (Dict.get w f1); [now apply dict_set_keys_nodup|assumption].
Qed.

Lemma dict_get_none_keys {V} (k : string) (d : Dict.t V) :
  Dict.get k d = None <-> ~ In k (Dict.keys d).
Proof.
  induction d as [|[k' v'] d IH]; cbn; [tauto|].
  destruct (String.eqb k k') eqn:E.
  - apply String.eqb_eq in E. subst. split; [discriminate|]. intros H. exfalso. auto.
  - rewrite IH. split; intros H; [|tauto].
    intros [->|Hin]; [rewrite String.eqb_refl in E; discriminate|auto].
Qed.

(** [count_documents] adds one to the count of every key of [items]. *)
Lemma count_documents_get (items : Dict.t Z) (nd : Dict.t Z) (x : string) :
  NoDup (Dict.keys items) ->
  Dict.get x (SparseVectorStore.count_documents items nd)
  = match Dict.get x items with
    | Some _ => Some (or_default (Dict.get x nd) + 1)%Z
    | None => Dict.get x nd
    end.
Proof.
  revert nd. induction items as [|[w c] items IH]; intros nd Hn; [reflexivity|].
  cbn [SparseVectorStore.count_documents Dict.get].
  inversion Hn as [|? ? Hnotin Hn']; subst.
  rewrite IH by assumption.
  destruct (String.eqb x w) eqn:E.
  - apply String.eqb_eq in E. subst x.
    apply dict_get_none_keys in Hnotin. rewrite Hnotin.
    destruct (Dict.get w nd); now rewrite dict_get_set_same.
  - assert (Hne : x <> w) by (intros ->; rewrite String.eqb_refl in E; discriminate).
    assert (Hg : Dict.get x
                   (match Dict.get w nd with
                    | Some c0 => Dict.set w (c0 + 1)%Z nd
                    | None => Dict.set w 1%Z nd
                    end) = Dict.get x nd).
    { destruct (Dict.get w nd); now apply dict_get_set_other. }
    now rewrite Hg.
Qed.

Lemma df_cons (d : list string) (corpus : list (list string)) (q : string) :
  df (d :: corpus) q = ((if (freq q d =? 0)%Z then 0 else 1) + df corpus q)%Z.
Proof.
  unfold df. cbn [filter]. destruct (freq q d =? 0)%Z; cbn [negb length]; lia.
Qed.

Lemma df_nonneg (corpus : list (list string)) (q : string) : (0 <= df corpus q)%Z.
Proof. unfold df. lia. Qed.

Lemma index_document_nd (l : SparseVectorStore.locals) (d : list string) (x : string) :
  Dict.get x (SparseVectorStore.loc_nd (SparseVectorStore.index_document l d))
  = if (freq x d =? 0)%Z then Dict.get x (SparseVectorStore.loc_nd l)
    else Some (or_default (Dict.get x (SparseVectorStore.loc_nd l)) + 1)%Z.
Proof.
  unfold SparseVectorStore.index_document. cbn [SparseVectorStore.loc_nd].
  rewrite count_documents_get by (apply count_words_keys_nodup; constructor).
  rewrite count_words_get. cbn [Dict.get].
  destruct (freq x d =? 0)%Z; reflexivity.
Qed.

Lemma index_fold_nd (corpus : list (list string)) (l : SparseVectorStore.locals)
    (x : string) :
  Dict.get x (SparseVectorStore.loc_nd (fold_left SparseVectorStore.index_document corpus l))
  = if (df corpus x =? 0)%Z then Dict.get x (SparseVectorStore.loc_nd l)
    else Some (or_default (Dict.get x (SparseVectorStore.loc_nd l)) + df corpus x)%Z.
Proof.
  revert l. induction corpus as [|d corpus IH]; intros l; [reflexivity|].
  cbn [fold_left]. rewrite IH, index_document_nd, df_cons.
  pose proof (df_nonneg corpus x).
  destruct (Z.eqb_spec (freq x d) 0), (Z.eqb_spec (df corpus x) 0);
    cbn [or_default];
    repeat match goal with
           | |- context [(?a =? 0)%Z] => destruct (Z.eqb_spec a 0)
           end; try lia; try reflexivity; f_equal; lia.
Qed.

Lemma index_fold_fields (corpus : list (list string)) (l : SparseVectorStore.locals) :
  let l' := fold_left SparseVectorStore.index_document corpus l in
  let a := SparseVectorStore.loc_assets l in
  let a' := SparseVectorStore.loc_assets l' in
  doc_freqs a' = doc_freqs a ++ map (fun d => SparseVectorStore.count_words d []) corpus /\
  doc_len a' = doc_len a ++ map (fun d => Z.of_nat (length d)) corpus /\
  SparseVectorStore.loc_num_doc l'
  = (SparseVectorStore.loc_num_doc l + Z.of_nat (length (concat corpus)))%Z /\
  nd a' = nd a.
Proof.
  revert l. induction corpus as [|d corpus IH]; intros l; cbv zeta.
  - cbn. rewrite !app_nil_r. repeat split; lia.
  - cbn [fold_left]. destruct (IH (SparseVectorStore.index_document l d)) as (H1 & H2 & H3 & H4).
    rewrite H1, H2, H3, H4. cbn. rewrite <- !app_assoc, length_app. cbn.
    repeat split; lia.
Qed.

Lemma dict_get_map_values {V W} (g : V -> W) (d : Dict.t V) (k : string) :
  Dict.get k (map (fun kv => (fst kv, g (snd kv))) d) = option_map g (Dict.get k d).
Proof.
  induction d as [|[k' v] d IH]; [reflexivity|].
  cbn. destruct (String.eqb k k'); [reflexivity|exact IH].
Qed.

(** The fields of the statistics built from a corpus *)
Lemma built_fields (ln : float -> float) (corpus : list (list string)) :
  let a := built ln corpus in
  corpus_size a = Z.of_nat (length corpus) /\
  avgdl a = (float_of_Z (Z.of_nat (length (concat corpus)))
             / float_of_Z (Z.of_nat (length corpus)))%float /\
  doc_freqs a = map (fun d => SparseVectorStore.count_words d []) corpus /\
  doc_len a = map (fun d => Z.of_nat (length d)) corpus /\
  nd a = 0%Z /\
  forall q,
    Dict.get q (idf a)
    = if (df corpus q =? 0)%Z then None
      else Some (SparseVectorStore._calculate_idf ln (df corpus q) (Z.of_nat (length corpus))).
Proof.
  cbv zeta. unfold built.
  set (l0 := SparseVectorStore.mkLocals [] 0 SparseVectorStore.no_assets).
  destruct (index_fold_fields corpus l0) as (H1 & H2 & H3 & H4).
  pose proof (index_corpus_size corpus l0) as H5.
  cbn [corpus_size avgdl doc_freqs doc_len nd idf].
  assert (H6 : forall q,
             Dict.get q
               (map (fun wc =>
                       (fst wc,
                        SparseVectorStore._calculate_idf ln (snd wc)
                          (corpus_size
                             (SparseVectorStore.loc_assets
                                (fold_left SparseVectorStore.index_document corpus l0)))))
                  (SparseVectorStore.loc_nd
                     (fold_left SparseVectorStore.index_document corpus l0)))
             = if (df corpus q =? 0)%Z then None
               else Some (SparseVectorStore._calculate_idf ln (df corpus q)
                            (Z.of_nat (length corpus)))).
  { intros q.
    rewrite (dict_get_map_values
               (fun c => SparseVectorStore._calculate_idf ln c
                           (corpus_size
                              (SparseVectorStore.loc_assets
                                 (fold_left SparseVectorStore.index_document corpus l0))))).
    rewrite index_fold_nd, H5. cbn.
    destruct (df corpus q =? 0)%Z; reflexivity. }
  rewrite H1, H2, H3, H4, H5. cbn.
  repeat split. intros q. specialize (H6 q). rewrite H5 in H6. exact H6.
Qed.

(** ** The scores of a rebuilt index *)

Lemma or_zero_some (v : float) : v <> neg_zero -> or_zero (Some v) = v.
Proof.
  intros Hv. unfold or_zero. destruct (v =? 0)%float eqn:E; [|reflexivity].
  apply eqb_zero_SF in E. destruct E as [[|] E].
  - exfalso. apply Hv. apply Prim2SF_inj. rewrite E. reflexivity.
  - apply Prim2SF_inj. rewrite E. reflexivity.
Qed.

Lemma combine_map_same {A B C} (f : A -> B) (g : A -> C) (l : list A) :
  combine (map f l) (map g l) = map (fun x => (f x, g x)) l.
Proof. induction l as [|x l IH]; cbn; congruence. Qed.

Lemma map_const_repeat {A B} (c : B) (l : list A) :
  map (fun _ => c) l = repeat c (length l).
Proof. induction l as [|x l IH]; cbn; congruence. Qed.

Section Scores.

Variable tokenize : string -> list string.
Variable ln : float -> float.

Hypothesis ln_no_negative_zero : forall x, ln x <> neg_zero.

Variable s : SparseVectorStore.t.
Variable corpus : list (list string).

Hypothesis s_assets : SparseVectorStore.assets s = built ln corpus.
Hypothesis s_parameters : SparseVectorStore.default_parameters s.

Lemma built_idf (q : string) :
  or_zero (Dict.get q (idf (built ln corpus))) = Bm25.idf ln corpus q.
Proof.
  destruct (built_fields ln corpus) as (_ & _ & _ & _ & _ & Hidf).
  rewrite Hidf. unfold Bm25.idf.
  destruct (df corpus q =? 0)%Z; [reflexivity|].
  apply or_zero_some, ln_no_negative_zero.
Qed.

Lemma score_token_built (g : list string -> float) (q : string) :
  SparseVectorStore.score_token s (map g corpus) q
  = Return (map (fun d => (g d + Bm25.contribution ln corpus q d)%float) corpus).
Proof.
  destruct s_parameters as (Hk1 & Hb & Hdelta).
  destruct (built_fields ln corpus) as (_ & Havg & Hfreqs & Hlen & _ & _).
  unfold SparseVectorStore.score_token. rewrite s_assets, built_idf.
  rewrite Hfreqs, Hlen, Havg, Hk1, Hb, Hdelta, !map_map.
  unfold broadcast2. rewrite !length_map, Nat.eqb_refl.
  rewrite combine_map_same, !map_map.
  unfold iadd. rewrite !length_map, Nat.eqb_refl.
  rewrite combine_map_same, !map_map. cbn [fst snd].
  f_equal. apply map_ext. intros d.
  rewrite freq_or_zero_count_words. reflexivity.
Qed.

Lemma score_tokens_built (tokens : list string) (g : list string -> float) :
  SparseVectorStore.score_tokens s (map g corpus) tokens
  = Return (map (fun d =>
                   fold_left (fun acc q => (acc + Bm25.contribution ln corpus q d)%float)
                     tokens (g d)) corpus).
Proof.
  revert g. induction tokens as [|q tokens IH]; intros g; [reflexivity|].
  cbn [SparseVectorStore.score_tokens fold_left].
  rewrite score_token_built. apply IH.
Qed.

Lemma get_scores_built (query : string) :
  SparseVectorStore.get_scores tokenize s query
  = Return (map (Bm25.score ln corpus (tokenize query)) corpus).
Proof.
  destruct (built_fields ln corpus) as (Hsize & _).
  unfold SparseVectorStore.get_scores, np_zeros. rewrite s_assets, Hsize.
  replace (Z.of_nat (length corpus) <? 0)%Z with false by (symmetry; apply Z.ltb_ge; lia).
  rewrite Nat2Z.id.
  replace (repeat 0%float (length corpus)) with (map (fun _ : list string => 0%float) corpus).
  - apply score_tokens_built.
  - apply map_const_repeat.
Qed.

End Scores.

(** ** The claims about scoring and persistence *)


(** C8: when the rebuild has returned, the sidecar holds the statistics
    it derived; a new store over the same node map and sidecar path with
    [force_index] off loads them, and they are the statistics a rebuild
    from scratch over that node map derives: the same [corpus_size],
    [avgdl], [doc_freqs], [idf], [doc_len] and [nd]. *)
Theorem sidecar_reload_reproduces_rebuild
    (tokenize : string -> list string) (ln : float -> float)
    (st st1 : SparseVectorStore.state) (fresh : SparseVectorStore.t) (w : World) :
  SparseVectorStore._initialize_bm25_assets tokenize ln st = (Return tt, st1) ->
  SparseVectorStore.node_dict fresh = SparseVectorStore.node_dict (SparseVectorStore.self st) ->
  SparseVectorStore.metadata_file fresh = SparseVectorStore.metadata_file (SparseVectorStore.self st) ->
  SparseVectorStore.force_index fresh = false ->
  let reloaded :=
    SparseVectorStore.__init__ tokenize ln
      (SparseVectorStore.mkState fresh (SparseVectorStore.world st1)) in
  let rebuilt :=
    SparseVectorStore._initialize_bm25_assets tokenize ln (SparseVectorStore.mkState fresh w) in
  Dict.get (SparseVectorStore.metadata_file (SparseVectorStore.self st))
    (fs (SparseVectorStore.world st1))
  = Some (JsonFile (SparseVectorStore.assets (SparseVectorStore.self st1))) /\
  fst reloaded = Return tt /\
  fst rebuilt = Return tt /\
  SparseVectorStore.assets (SparseVectorStore.self (snd reloaded))
  = SparseVectorStore.assets (SparseVectorStore.self (snd rebuilt)).
Proof.
  intros Hr Hd Hm Hf reloaded rebuilt.
  assert (Hne : SparseVectorStore.node_dict (SparseVectorStore.self st) <> []).
  { intros He. rewrite rebuild_empty in Hr by assumption. discriminate. }
  rewrite rebuild_nonempty in Hr by assumption. injection Hr as <-.
  cbn [SparseVectorStore.world SparseVectorStore.self SparseVectorStore.assets
       SparseVectorStore.set_assets fs emit write_file].
  assert (Hc : corpus_of tokenize fresh = corpus_of tokenize (SparseVectorStore.self st)).
  { unfold corpus_of. now rewrite Hd. }
  split; [apply dict_get_set_same|].
  unfold rebuilt. rewrite rebuild_nonempty by (cbn; now rewrite Hd).
  cbn [fst snd SparseVectorStore.self SparseVectorStore.assets SparseVectorStore.set_assets].
  rewrite Hc.
  unfold reloaded, SparseVectorStore.__init__, SparseVectorStore._load_from_json,
    SparseVectorStore.update_self. run.
  rewrite Hd, Hm, Hf. unfold Dict.mem. cbn [fs emit write_file].
  rewrite dict_get_set_same. cbn.
  destruct (SparseVectorStore.node_dict (SparseVectorStore.self st)); [congruence|].
  cbn. rewrite ?Hm, dict_get_set_same. cbn. auto.
Qed.

(** ** Empty stores *)

Lemma score_tokens_empty_index (s : SparseVectorStore.t) (tokens : list string) :
  empty_index (SparseVectorStore.assets s) ->
  SparseVectorStore.score_tokens s [] tokens = Return [].
Proof.
  intros (_ & Hf & Hl). induction tokens as [|q tokens IH]; [reflexivity|].
  cbn [SparseVectorStore.score_tokens]. unfold SparseVectorStore.score_token.
  rewrite Hf, Hl. cbn. exact IH.
Qed.

Lemma sparse_query_empty_index (tokenize : string -> list string)
    (argsort : list float -> list nat) (query : string)
    (top_k : Z) (st : SparseVectorStore.state) :
  numpy_argsort argsort ->
  empty_index (SparseVectorStore.assets (SparseVectorStore.self st)) ->
  SparseVectorStore.query tokenize argsort query top_k st = (Return (mkResult [] [] []), st).
Proof.
  intros Hsort He. rewrite sparse_query_unfold.
  unfold SparseVectorStore.get_scores. destruct He as (Hc & Hf & Hl).
  rewrite Hc. cbn [np_zeros Z.ltb Z.compare Z.to_nat repeat].
  rewrite score_tokens_empty_index by (repeat split; assumption).
  assert (E : argsort [] = []).
  { destruct (Hsort []) as [Hp _]. cbn in Hp. now apply Permutation_nil. }
  cbv zeta. rewrite E. unfold slice_to. cbn [rev length].
  destruct (top_k <? 0)%Z; rewrite firstn_nil; reflexivity.
Qed.


(** C6: the dense [query] guards the store without nodes: it returns
    three empty sequences and reports the condition in the log.  The
    sparse [query] has no such guard and no log call.  On a store without
    nodes whose statistics still count documents it looks up the name of
    a position and raises [KeyError], for every [top_k] that asks for at
    least one result; on a store without nodes whose statistics count no
    document it returns three empty sequences and reports nothing. *)
Theorem query_on_store_without_nodes
    (embed : string -> list float) (tokenize : string -> list string)
    (argsort : list float -> list nat) (query : string) (top_k : Z) :
  numpy_argsort argsort ->
  (forall st,
     SemanticVectorStore.node_dict (SemanticVectorStore.self st) = [] ->
     SemanticVectorStore.query embed query top_k st =
     (Return (mkResult [] [] []),
      SemanticVectorStore.mkState (SemanticVectorStore.self st)
        (SemanticVectorStore.objects st)
        (emit (LogError "No documents found in the index.")
           (SemanticVectorStore.world st))))
  /\
  (forall st scores,
     SparseVectorStore.node_dict (SparseVectorStore.self st) = [] ->
     SparseVectorStore.get_scores tokenize (SparseVectorStore.self st) query = Return scores ->
     (0 < slice_length top_k (Z.of_nat (length scores)))%Z ->
     exists p,
       p < length scores /\
       SparseVectorStore.query tokenize argsort query top_k st
       = (Raise (KeyError (str p)), st))
  /\
  (forall st,
     SparseVectorStore.node_dict (SparseVectorStore.self st) = [] ->
     empty_index (SparseVectorStore.assets (SparseVectorStore.self st)) ->
     SparseVectorStore.query tokenize argsort query top_k st = (Return (mkResult [] [] []), st)).
Proof.
  intros Hsort. split; [|split].
  - intros st He. now apply dense_query_empty.
  - intros st scores He Hs Hk.
    pose proof (top_positions_count argsort Hsort top_k scores) as Hc.
    rewrite sparse_query_unfold, Hs, He. cbv zeta.
    destruct (slice_to top_k (rev (argsort scores))) as [|p ps] eqn:E.
    + cbn [length] in Hc. lia.
    + exists p. split; [|reflexivity].
      apply (top_positions_in_range argsort Hsort top_k). rewrite E. now left.
  - intros st _ He. now apply sparse_query_empty_index.
Qed.

(** C3: [add] on a sparse store without nodes, given no nodes, raises
    [ZeroDivisionError]: the average document length is computed by an
    unguarded division by the corpus size.  The constructor does guard:
    on a store without nodes it builds nothing and returns. *)
Theorem sparse_add_on_empty_corpus_divides_by_zero
    (tokenize : string -> list string) (ln : float -> float)
    (st : SparseVectorStore.state) :
  SparseVectorStore.node_dict (SparseVectorStore.self st) = [] ->
  fst (SparseVectorStore.add tokenize ln [] st) = Raise ZeroDivisionError /\
  SparseVectorStore.__init__ tokenize ln st = (Return tt, st).
Proof.
  intros He. split; [now apply sparse_add_nothing | now apply sparse_init_empty].
Qed.

(** C9: in both stores, [get(n.id)] after [add([n])] returns [n], the
    very object in the dense store, which has been given its embedding
    in place; and [get] of an id that is not in the node map returns
    [None], raises nothing and logs the miss. *)
Theorem get_returns_added_node_and_none_for_missing_id
    (embed : string -> list float) (tokenize : string -> list string)
    (ln : float -> float) :
  (forall (node : SemanticVectorStore.ref) (st : SemanticVectorStore.state),
     let st' := snd (SemanticVectorStore.add embed [node] st) in
     fst (SemanticVectorStore.add embed [node] st)
     = Return [id_ (SemanticVectorStore.objects st' node)] /\
     SemanticVectorStore.get (id_ (SemanticVectorStore.objects st' node)) st'
     = (Return (Some node), st'))
  /\
  (forall (node : TextNode) (st : SparseVectorStore.state),
     let st' := snd (SparseVectorStore.add tokenize ln [node] st) in
     fst (SparseVectorStore.add tokenize ln [node] st) = Return [id_ node] /\
     SparseVectorStore.get (id_ node) st' = (Return (Some node), st'))
  /\
  (forall (text_id : string) (st : SemanticVectorStore.state),
     Dict.get text_id (SemanticVectorStore.node_dict (SemanticVectorStore.self st)) = None ->
     SemanticVectorStore.get text_id st =
     (Return None,
      SemanticVectorStore.mkState (SemanticVectorStore.self st)
        (SemanticVectorStore.objects st)
        (emit (LogError (not_found_message text_id)) (SemanticVectorStore.world st))))
  /\
  (forall (text_id : string) (st : SparseVectorStore.state),
     Dict.get text_id (SparseVectorStore.node_dict (SparseVectorStore.self st)) = None ->
     SparseVectorStore.get text_id st =
     (Return None,
      SparseVectorStore.mkState (SparseVectorStore.self st)
        (emit (LogError (not_found_message text_id)) (SparseVectorStore.world st)))).
Proof.
  repeat split.
  - apply (dense_add_one embed node st).
  - apply (dense_add_one embed node st).
  - apply (sparse_add_one tokenize ln node st).
  - apply (sparse_add_one tokenize ln node st).
  - intros text_id st H. now apply dense_get_missing.
  - intros text_id st H. now apply sparse_get_missing.
Qed.

(** C10: the dense [delete] of an id that is not in the node map returns
    and changes neither the store nor the files: it only logs the miss.
    The snapshot is rewritten on the other branch only, after the node
    has been removed. *)
Theorem dense_delete_of_missing_id_writes_nothing
    (node_id : string) (st : SemanticVectorStore.state) :
  (Dict.mem node_id (SemanticVectorStore.node_dict (SemanticVectorStore.self st)) = false ->
   exists st',
     SemanticVectorStore.delete node_id st = (Return tt, st') /\
     SemanticVectorStore.self st' = SemanticVectorStore.self st /\
     SemanticVectorStore.objects st' = SemanticVectorStore.objects st /\
     fs (SemanticVectorStore.world st') = fs (SemanticVectorStore.world st) /\
     events (SemanticVectorStore.world st')
     = events (SemanticVectorStore.world st) ++ [LogError (not_found_message node_id)])
  /\
  (Dict.mem node_id (SemanticVectorStore.node_dict (SemanticVectorStore.self st)) = true ->
   SemanticVectorStore.delete node_id st =
   SemanticVectorStore._update_csv
     (SemanticVectorStore.mkState
        (SemanticVectorStore.set_node_dict
           (Dict.del node_id (SemanticVectorStore.node_dict (SemanticVectorStore.self st)))
           (SemanticVectorStore.self st))
        (SemanticVectorStore.objects st) (SemanticVectorStore.world st))).
Proof.
  split; intros H.
  - eexists. split; [now apply dense_delete_missing|]. cbn. auto.
  - unfold SemanticVectorStore.delete. run. rewrite H.
    destruct (SemanticVectorStore._update_csv _) as [[] ?]; reflexivity.
Qed.

(** ** The properties at work on the example stores *)

Lemma example_ln_no_negative_zero (x : float) : Example.ln x <> neg_zero.
Proof.
  unfold Example.ln. destruct (x - 1 =? 0)%float eqn:E; intros H.
  - apply (f_equal Prim2SF) in H. vm_compute in H. discriminate.
  - rewrite H in E. vm_compute in E. discriminate.
Defined.

Lemma example_dense3_conforming :
  conforming (length (Example.embed "q")) (doc_embeddings_of Example.dense3).
Proof.
  vm_compute. repeat (constructor; [eexists; split; reflexivity|]). constructor.
Defined.



Lemma dense_similarity_of_zero_norm_is_not_a_number_witness :
  exists r,
    SemanticVectorStore.query Example.embed "q" 3 Example.dense3
    = (Return r, Example.dense3).
Proof.
  destruct (dense_similarity_of_zero_norm_is_not_a_number Example.embed "q" 3
              Example.dense3) as (r & Hq & _).
  - vm_compute. discriminate.
  - exact example_dense3_conforming.
  - exists r. exact Hq.
Defined.

(** The similarity of the document whose embedding is [(0, 0)] is NaN,
    not 0. *)
Lemma dense_zero_norm_similarity_is_nan :
  (SemanticVectorStore.norm [0%float; 0%float] =? 0)%float = true /\
  fst (SemanticVectorStore.query Example.embed "q" 3 Example.dense_zero)
  = Return (mkResult [1] [nan] ["b"]) /\
  (nan =? 0)%float = false /\ finite nan = false.
Proof. vm_compute. repeat split. Qed.

Lemma sparse_add_on_empty_corpus_divides_by_zero_witness :
  SparseVectorStore.node_dict (SparseVectorStore.self Example.sparse0) = [] /\
  fst (SparseVectorStore.add Example.tokenize Example.ln [] Example.sparse0)
  = Raise ZeroDivisionError.
Proof.
  split; [reflexivity|].
  apply (sparse_add_on_empty_corpus_divides_by_zero Example.tokenize Example.ln
           Example.sparse0). reflexivity.
Defined.




(** A sparse store emptied by [delete] keeps its statistics: the query
    looks for the node of position 0 and raises. *)
Lemma query_on_store_without_nodes_witness :
  SparseVectorStore.node_dict (SparseVectorStore.self Example.sparse_deleted) = [] /\
  SparseVectorStore.query Example.tokenize Example.argsort "cat" 3 Example.sparse_deleted
  = (Raise (KeyError "0"), Example.sparse_deleted).
Proof.
  split; [reflexivity|].
  eassert (Hs : SparseVectorStore.get_scores Example.tokenize
                  (SparseVectorStore.self Example.sparse_deleted) "cat" = Return [_])
    by (vm_compute; reflexivity).
  destruct (proj1 (proj2 (query_on_store_without_nodes Example.embed Example.tokenize
                            Example.argsort "cat" 3 example_argsort_numpy))
              Example.sparse_deleted _ eq_refl Hs) as (p & Hp & Hq).
  - vm_compute. reflexivity.
  - destruct p as [|p]; [exact Hq|]. cbn in Hp. lia.
Defined.

Lemma query_result_length_and_order_witness :
  exists r,
    fst (SemanticVectorStore.query Example.embed "q" 3 Example.dense3) = Return r /\
    has_length r 3.
Proof.
  destruct (proj1 (query_result_length_and_order Example.embed Example.tokenize 3%Z)
              "q" Example.dense3 example_dense3_conforming)
    as (r & Hr & Hl & _).
  exists r. split; [exact Hr|]. exact Hl.
Defined.

(** A negative [top_k] cuts from the end: of two documents, one is
    returned for [top_k = -1]. *)
Lemma sparse_query_with_negative_top_k :
  exists s,
    fst (SparseVectorStore.query Example.tokenize Example.argsort "the" (-1) Example.sparse2)
    = Return (mkResult [Example.node1] [s] [1]).
Proof. eexists. vm_compute. reflexivity. Qed.

(** The similarities [0.6, NaN, 1.0] come back in this order. *)
Lemma dense_scores_around_nan_are_not_ordered :
  exists r,
    fst (SemanticVectorStore.query Example.embed "q" 3 Example.dense3) = Return r /\
    similarities r = [0x1.3333333333333p-1%float; nan; 1%float] /\
    ids r = ["a"; "b"; "c"] /\
    ~ non_increasing (similarities r).
Proof.
  eexists. split; [vm_compute; reflexivity|]. cbn [similarities ids].
  split; [reflexivity|]. split; [reflexivity|].
  unfold non_increasing. intros H.
  inversion H as [|a l Hs Hh]; subst.
  inversion Hh as [|b0 l' Hb]; subst.
  vm_compute in Hb. discriminate.
Qed.

Lemma sidecar_reload_reproduces_rebuild_witness :
  let st1 := snd (SparseVectorStore._initialize_bm25_assets Example.tokenize Example.ln
                    Example.sparse2) in
  let fresh := SparseVectorStore.self Example.sparse2 in
  SparseVectorStore.assets
    (SparseVectorStore.self
       (snd (SparseVectorStore.__init__ Example.tokenize Example.ln
               (SparseVectorStore.mkState fresh (SparseVectorStore.world st1)))))
  = SparseVectorStore.assets
      (SparseVectorStore.self
         (snd (SparseVectorStore._initialize_bm25_assets Example.tokenize Example.ln
                 (SparseVectorStore.mkState fresh Example.world0)))).
Proof.
  cbv zeta.
  apply (sidecar_reload_reproduces_rebuild Example.tokenize Example.ln Example.sparse2
           (snd (SparseVectorStore._initialize_bm25_assets Example.tokenize Example.ln
                   Example.sparse2))
           (SparseVectorStore.self Example.sparse2) Example.world0).
  - vm_compute. reflexivity.
  - reflexivity.
  - reflexivity.
  - vm_compute. reflexivity.
Defined.

Lemma get_returns_added_node_and_none_for_missing_id_witness :
  SparseVectorStore.get "7" Example.sparse2
  = (Return None,
     SparseVectorStore.mkState (SparseVectorStore.self Example.sparse2)
       (emit (LogError (not_found_message "7")) (SparseVectorStore.world Example.sparse2))).
Proof.
  apply (proj2 (proj2 (proj2 (get_returns_added_node_and_none_for_missing_id
                                Example.embed Example.tokenize Example.ln)))).
  vm_compute. reflexivity.
Defined.

Lemma dense_delete_of_missing_id_writes_nothing_witness :
  exists st',
    SemanticVectorStore.delete "z" Example.dense3 = (Return tt, st') /\
    fs (SemanticVectorStore.world st') = fs (SemanticVectorStore.world Example.dense3).
Proof.
  destruct (proj1 (dense_delete_of_missing_id_writes_nothing "z" Example.dense3))
    as (st' & Hd & _ & _ & Hf & _).
  - vm_compute. reflexivity.
  - exists st'. split; [exact Hd | exact Hf].
Defined.

(** * More of the stores *)

(** ** What [add] does to the sparse store *)

Lemma sparse_for_each_inserted (nodes : list TextNode) (st : SparseVectorStore.state) :
  for_each nodes
    (fun node =>
       SparseVectorStore.update_self
         (fun s => SparseVectorStore.set_node_dict
                     (Dict.set (id_ node) node (SparseVectorStore.node_dict s)) s))
    st
  = (Return tt,
     SparseVectorStore.mkState
       (SparseVectorStore.set_node_dict
          (inserted nodes (SparseVectorStore.node_dict (SparseVectorStore.self st)))
          (SparseVectorStore.self st))
       (SparseVectorStore.world st)).
Proof.
  revert st. induction nodes as [|n nodes IH]; intros [[d p f sf mf a k1 b0 dl] w].
  - reflexivity.
  - cbn [for_each]. unfold SparseVectorStore.update_self at 1. run.
    rewrite IH. reflexivity.
Qed.

Lemma inserted_not_empty (nodes : list TextNode) (d : Dict.t TextNode) :
  inserted nodes d = [] <-> nodes = [] /\ d = [].
Proof.
  split.
  - revert d. induction nodes as [|n nodes IH]; intros d H; [auto|].
    cbn in H. apply IH in H. destruct H as [_ H].
    exfalso. exact (dict_set_not_empty _ _ _ H).
  - intros [-> ->]. reflexivity.
Qed.

(** The whole of [add], in terms of the node map it builds *)
Lemma sparse_add_unfold (tokenize : string -> list string) (ln : float -> float)
    (nodes : list TextNode) (st : SparseVectorStore.state) :
  let s1 := SparseVectorStore.set_node_dict
              (inserted nodes (SparseVectorStore.node_dict (SparseVectorStore.self st)))
              (SparseVectorStore.self st) in
  let w1 := SparseVectorStore.world
              (snd (SparseVectorStore._update_csv
                      (SparseVectorStore.mkState s1 (SparseVectorStore.world st)))) in
  SparseVectorStore.add tokenize ln nodes st =
  match SparseVectorStore.node_dict s1 with
  | [] =>
      (Raise ZeroDivisionError,
       SparseVectorStore.mkState
         (SparseVectorStore.set_assets SparseVectorStore.no_assets s1) w1)
  | _ =>
      let a := built ln (corpus_of tokenize s1) in
      let path := SparseVectorStore.metadata_file s1 in
      (Return (map id_ nodes),
       SparseVectorStore.mkState (SparseVectorStore.set_assets a s1)
         (emit (WroteJson path a) (write_file path (JsonFile a) w1)))
  end.
Proof.
  cbv zeta. unfold SparseVectorStore.add. run.
  rewrite sparse_for_each_inserted. run.
  cbn [SparseVectorStore.node_dict SparseVectorStore.set_node_dict].
  set (s1 := SparseVectorStore.set_node_dict _ _).
  destruct (sparse_update_csv_self (SparseVectorStore.mkState s1 (SparseVectorStore.world st)))
    as (U1 & U2).
  destruct (SparseVectorStore._update_csv _) as [o [s2 w2]].
  cbn [fst snd SparseVectorStore.self SparseVectorStore.world] in *. subst o s2.
  assert (Hd : SparseVectorStore.node_dict s1
               = inserted nodes (SparseVectorStore.node_dict (SparseVectorStore.self st)))
    by reflexivity.
  destruct (inserted nodes (SparseVectorStore.node_dict (SparseVectorStore.self st)))
    as [|kv d] eqn:Ed.
  - rewrite rebuild_empty by exact Hd. reflexivity.
  - rewrite rebuild_nonempty by (cbn [SparseVectorStore.self]; rewrite Hd; discriminate).
    reflexivity.
Qed.

Lemma find_app {A} (f : A -> bool) (l1 l2 : list A) :
  find f (l1 ++ l2) = match find f l1 with Some x => Some x | None => find f l2 end.
Proof.
  induction l1 as [|x l1 IH]; [reflexivity|]. cbn. destruct (f x); [reflexivity|exact IH].
Qed.

Lemma inserted_get (nodes : list TextNode) (d : Dict.t TextNode) (k : string) :
  Dict.get k (inserted nodes d)
  = match last_with_id k nodes with
    | Some node => Some node
    | None => Dict.get k d
    end.
Proof.
  unfold last_with_id. revert d. induction nodes as [|n nodes IH]; intros d; [reflexivity|].
  cbn [inserted fold_left rev]. fold (inserted nodes (Dict.set (id_ n) n d)).
  rewrite IH, find_app. destruct (find _ (rev nodes)); [reflexivity|].
  cbn [find]. destruct (String.eqb (id_ n) k) eqn:E.
  - apply String.eqb_eq in E. subst k. apply dict_get_set_same.
  - apply dict_get_set_other. intros ->. rewrite String.eqb_refl in E. discriminate.
Qed.

(** X1: [add] of the sparse store returns the ids of the given nodes in
    their order, unless the node map is empty afterwards, in which case
    it raises [ZeroDivisionError]; the map is empty afterwards only when
    it was empty and no node was given.  Afterwards an id is mapped to
    the last of the given nodes that carries it, and an id that none of
    them carries is mapped as before. *)
Theorem sparse_add_stores_the_last_node_of_an_id
    (tokenize : string -> list string) (ln : float -> float)
    (nodes : list TextNode) (st : SparseVectorStore.state) :
  let d := SparseVectorStore.node_dict (SparseVectorStore.self st) in
  let result := SparseVectorStore.add tokenize ln nodes st in
  let d' := SparseVectorStore.node_dict (SparseVectorStore.self (snd result)) in
  (d' = [] <-> nodes = [] /\ d = []) /\
  (d' <> [] -> fst result = Return (map id_ nodes)) /\
  (d' = [] -> fst result = Raise ZeroDivisionError) /\
  (forall k,
     Dict.get k d' = match last_with_id k nodes with
                     | Some node => Some node
                     | None => Dict.get k d
                     end).
Proof.
  cbv zeta. rewrite sparse_add_unfold. cbv zeta.
  cbn [SparseVectorStore.node_dict SparseVectorStore.set_node_dict].
  pose proof (inserted_not_empty nodes
                (SparseVectorStore.node_dict (SparseVectorStore.self st))) as Hne.
  pose proof (inserted_get nodes
                (SparseVectorStore.node_dict (SparseVectorStore.self st))) as Hget.
  revert Hne Hget.
  destruct (inserted nodes (SparseVectorStore.node_dict (SparseVectorStore.self st)))
    as [|kv d']; intros Hne Hget; cbn [fst snd SparseVectorStore.self
                                       SparseVectorStore.node_dict
                                       SparseVectorStore.set_assets];
    (split; [exact Hne|]); (split; [|split]); try (cbn; congruence); auto.
Qed.

Lemma sparse_add_self (tokenize : string -> list string) (ln : float -> float)
    (nodes : list TextNode) (st : SparseVectorStore.state) :
  SparseVectorStore.self (snd (SparseVectorStore.add tokenize ln nodes st))
  = let s1 := SparseVectorStore.set_node_dict
                (inserted nodes (SparseVectorStore.node_dict (SparseVectorStore.self st)))
                (SparseVectorStore.self st) in
    SparseVectorStore.set_assets
      (match SparseVectorStore.node_dict s1 with
       | [] => SparseVectorStore.no_assets
       | _ => built ln (corpus_of tokenize s1)
       end) s1.
Proof.
  rewrite sparse_add_unfold. cbv zeta.
  destruct (SparseVectorStore.node_dict _); reflexivity.
Qed.

Lemma inserted_app (n1 n2 : list TextNode) (d : Dict.t TextNode) :
  inserted (n1 ++ n2) d = inserted n2 (inserted n1 d).
Proof. unfold inserted. apply fold_left_app. Qed.

(** X2: two [add]s in a row leave the sparse store as one [add] of the
    two lists does: the same node map, the same statistics (every [add]
    rebuilds them from the whole map), the same remaining fields. *)
Theorem sparse_add_twice_is_add_of_both
    (tokenize : string -> list string) (ln : float -> float)
    (nodes1 nodes2 : list TextNode) (st : SparseVectorStore.state) :
  SparseVectorStore.self
    (snd (SparseVectorStore.add tokenize ln nodes2
            (snd (SparseVectorStore.add tokenize ln nodes1 st))))
  = SparseVectorStore.self (snd (SparseVectorStore.add tokenize ln (nodes1 ++ nodes2) st)).
Proof.
  rewrite !sparse_add_self. cbv zeta.
  cbn [SparseVectorStore.node_dict SparseVectorStore.set_node_dict
       SparseVectorStore.set_assets].
  rewrite inserted_app. unfold corpus_of.
  cbn [SparseVectorStore.node_dict SparseVectorStore.set_node_dict
       SparseVectorStore.set_assets SparseVectorStore.persist
       SparseVectorStore.force_index SparseVectorStore.saved_file
       SparseVectorStore.metadata_file SparseVectorStore.k1 SparseVectorStore.b
       SparseVectorStore.delta].
  reflexivity.
Qed.

(** ** The statistics after [add] *)

Lemma sparse_add_returned (tokenize : string -> list string) (ln : float -> float)
    (nodes : list TextNode) (st : SparseVectorStore.state) (ids : list string) :
  fst (SparseVectorStore.add tokenize ln nodes st) = Return ids ->
  let s' := SparseVectorStore.self (snd (SparseVectorStore.add tokenize ln nodes st)) in
  SparseVectorStore.node_dict s' <> [] /\
  SparseVectorStore.assets s' = built ln (corpus_of tokenize s').
Proof.
  cbv zeta. rewrite sparse_add_self. rewrite sparse_add_unfold. cbv zeta.
  cbn [SparseVectorStore.node_dict SparseVectorStore.set_node_dict
       SparseVectorStore.set_assets SparseVectorStore.assets].
  destruct (inserted nodes (SparseVectorStore.node_dict (SparseVectorStore.self st)));
    [discriminate|].
  intros _. split; [discriminate|reflexivity].
Qed.

Lemma corpus_of_length (tokenize : string -> list string) (s : SparseVectorStore.t) :
  length (corpus_of tokenize s) = length (SparseVectorStore.node_dict s).
Proof.
  unfold corpus_of, SparseVectorStore._tokenize_text, Dict.values.
  now rewrite !length_map.
Qed.

Lemma corpus_of_map (tokenize : string -> list string) (s : SparseVectorStore.t) :
  corpus_of tokenize s
  = map (fun kv => tokenize (text (snd kv))) (SparseVectorStore.node_dict s).
Proof.
  unfold corpus_of, SparseVectorStore._tokenize_text, Dict.values.
  now rewrite !map_map.
Qed.

Lemma concat_token_count (corpus : list (list string)) :
  Z.of_nat (length (concat corpus))
  = fold_right Z.add 0%Z (map (fun d => Z.of_nat (length d)) corpus).
Proof.
  induction corpus as [|d corpus IH]; [reflexivity|].
  cbn [concat map fold_right]. rewrite length_app, Nat2Z.inj_add, IH. reflexivity.
Qed.

(** X3: when [add] of the sparse store has returned, the statistics
    describe the node map: [corpus_size] is the number of nodes,
    [doc_freqs] and [doc_len] have one entry per node, [doc_len] holds
    the token counts of the texts in the order of the map, [avgdl] is
    the total token count over the number of nodes, and the field [nd]
    is 0 (the document counts live in a local of the same name). *)
Theorem sparse_add_leaves_statistics_of_the_node_map
    (tokenize : string -> list string) (ln : float -> float)
    (nodes : list TextNode) (st : SparseVectorStore.state) (ids : list string) :
  fst (SparseVectorStore.add tokenize ln nodes st) = Return ids ->
  let s' := SparseVectorStore.self (snd (SparseVectorStore.add tokenize ln nodes st)) in
  let a := SparseVectorStore.assets s' in
  let d' := SparseVectorStore.node_dict s' in
  corpus_size a = Z.of_nat (length d') /\
  (0 < corpus_size a)%Z /\
  length (doc_freqs a) = length d' /\
  doc_len a = map (fun kv => Z.of_nat (length (tokenize (text (snd kv))))) d' /\
  avgdl a = (float_of_Z (fold_right Z.add 0%Z (doc_len a)) / float_of_Z (corpus_size a))%float /\
  nd a = 0%Z.
Proof.
  intros Hr. destruct (sparse_add_returned _ _ _ _ _ Hr) as (Hne & Ha).
  cbv zeta in *. rewrite Ha.
  set (s' := SparseVectorStore.self _) in *.
  destruct (built_fields ln (corpus_of tokenize s')) as (H1 & H2 & H3 & H4 & H5 & _).
  rewrite H1, H2, H3, H4, H5, length_map, !corpus_of_length.
  repeat split.
  - destruct (SparseVectorStore.node_dict s'); [congruence|cbn; lia].
  - rewrite corpus_of_map, map_map. reflexivity.
  - now rewrite concat_token_count.
Qed.

Lemma sum_values_set (k : string) (v : Z) (d : Dict.t Z) :
  sum_values (Dict.set k v d) = (sum_values d - or_default (Dict.get k d) + v)%Z.
Proof.
  unfold sum_values, Dict.values.
  induction d as [|[k' v'] d IH]; cbn.
  - lia.
  - destruct (String.eqb k k'); cbn; [lia|]. rewrite IH. lia.
Qed.

Lemma count_words_sum (document : list string) (f : Dict.t Z) :
  sum_values (SparseVectorStore.count_words document f)
  = (sum_values f + Z.of_nat (length document))%Z.
Proof.
  revert f. induction document as [|w document IH]; intros f.
  - cbn [SparseVectorStore.count_words length]. lia.
  - cbn [SparseVectorStore.count_words]. rewrite IH.
    set (f1 := if Dict.mem w f then f else Dict.set w 0%Z f).
    assert (H1 : Dict.get w f1 = Some (or_default (Dict.get w f))).
    { unfold f1, Dict.mem. destruct (Dict.get w f) eqn:G; [exact G|].
      apply dict_get_set_same. }
    assert (H2 : sum_values f1 = sum_values f).
    { unfold f1, Dict.mem. destruct (Dict.get w f) eqn:G; [reflexivity|].
      rewrite sum_values_set, G. cbn. lia. }
    rewrite H1. cbv beta iota. rewrite sum_values_set, H1, H2. cbn [or_default length]. lia.
Qed.

Lemma freq_zero_iff (q : string) (d : list string) : freq q d = 0%Z <-> ~ In q d.
Proof.
  unfold freq. rewrite (count_occ_not_In string_dec). lia.
Qed.

Lemma df_zero_iff (corpus : list (list string)) (q : string) :
  df corpus q = 0%Z <-> forall d, In d corpus -> ~ In q d.
Proof.
  induction corpus as [|d corpus IH].
  - cbn. split; [intros _ d []|reflexivity].
  - rewrite df_cons. pose proof (df_nonneg corpus q) as Hn.
    destruct (Z.eqb_spec (freq q d) 0) as [E|E].
    + rewrite Z.add_0_l, IH. apply freq_zero_iff in E.
      split; intros H.
      * intros d' [<-|Hin]; auto.
      * intros d' Hin. apply H. now right.
    + split; [lia|]. intros H. exfalso. apply E. apply freq_zero_iff. apply H. now left.
Qed.

Lemma Forall2_map_right {A B} (P : A -> B -> Prop) (g : A -> B) (l : list A) :
  (forall x, In x l -> P x (g x)) -> Forall2 P l (map g l).
Proof.
  induction l as [|x l IH]; intros H; cbn; constructor.
  - apply H. now left.
  - apply IH. intros y Hy. apply H. now right.
Qed.

(** X4: when [add] of the sparse store has returned, the frequency map
    of every node holds, for each token of its text, the number of its
    occurrences, and nothing else, so that its values add up to the
    token count; and [idf] has an entry for exactly the tokens that occur
    in some text, the value [_calculate_idf] gives for the number of
    texts that have the token. *)
Theorem sparse_add_counts_the_tokens
    (tokenize : string -> list string) (ln : float -> float)
    (nodes : list TextNode) (st : SparseVectorStore.state) (ids : list string) :
  fst (SparseVectorStore.add tokenize ln nodes st) = Return ids ->
  let s' := SparseVectorStore.self (snd (SparseVectorStore.add tokenize ln nodes st)) in
  let a := SparseVectorStore.assets s' in
  let d' := SparseVectorStore.node_dict s' in
  Forall2
    (fun kv frequencies =>
       let tokens := tokenize (text (snd kv)) in
       (forall q, Dict.get q frequencies
                  = if (freq q tokens =? 0)%Z then None else Some (freq q tokens)) /\
       sum_values frequencies = Z.of_nat (length tokens))
    d' (doc_freqs a) /\
  (forall q, Dict.get q (idf a) = None <->
             forall kv, In kv d' -> ~ In q (tokenize (text (snd kv)))) /\
  (forall q v, Dict.get q (idf a) = Some v ->
               v = SparseVectorStore._calculate_idf ln
                     (df (corpus_of tokenize s') q) (Z.of_nat (length d'))).
Proof.
  intros Hr. destruct (sparse_add_returned _ _ _ _ _ Hr) as (Hne & Ha).
  cbv zeta in *. rewrite Ha.
  set (s' := SparseVectorStore.self _) in *.
  destruct (built_fields ln (corpus_of tokenize s')) as (_ & _ & H3 & _ & _ & H6).
  rewrite H3. split; [|split].
  - rewrite corpus_of_map, map_map. apply Forall2_map_right.
    intros kv _. split.
    + intros q. rewrite count_words_get. cbn [Dict.get or_default].
      now rewrite Z.add_0_l.
    + rewrite count_words_sum. reflexivity.
  - intros q. rewrite H6.
    destruct (Z.eqb_spec (df (corpus_of tokenize s') q) 0) as [E|E].
    + split; [intros _|reflexivity].
      rewrite df_zero_iff, corpus_of_map in E.
      intros kv Hin. apply E. apply in_map_iff. now exists kv.
    + split; [discriminate|]. intros H. exfalso. apply E.
      apply df_zero_iff. rewrite corpus_of_map. intros d Hin.
      apply in_map_iff in Hin as (kv & <- & Hin). now apply H.
  - intros q v. rewrite H6, corpus_of_length.
    destruct (df (corpus_of tokenize s') q =? 0)%Z; [discriminate|].
    now intros [= <-].
Qed.

(** ** Queries of the sparse store *)

Lemma sparse_query_state (tokenize : string -> list string)
    (argsort : list float -> list nat)
    (query : string) (top_k : Z) (st : SparseVectorStore.state) :
  snd (SparseVectorStore.query tokenize argsort query top_k st) = st.
Proof.
  rewrite sparse_query_unfold.
  destruct (SparseVectorStore.get_scores _ _ _); [|reflexivity].
  cbv zeta. destruct (map_outcome _ _); reflexivity.
Qed.

(** X5: [query] of the sparse store reads only: whether it returns or
    raises, the store and the world are as before (nothing is logged,
    nothing is written).  When it returns, no position occurs twice
    among the ids, every id is a position below [corpus_size], each
    similarity is the score at the id beside it, and there is one node
    per id; this holds for every order [np.argsort] may return. *)
Theorem sparse_query_reads_only_and_returns_distinct_positions
    (tokenize : string -> list string) (argsort : list float -> list nat)
    (query : string) (top_k : Z) (st : SparseVectorStore.state) :
  snd (SparseVectorStore.query tokenize argsort query top_k st) = st /\
  (numpy_argsort argsort ->
   forall r,
     fst (SparseVectorStore.query tokenize argsort query top_k st) = Return r ->
     NoDup (ids r) /\
     Forall (fun p => (Z.of_nat p < corpus_size (SparseVectorStore.assets
                                                  (SparseVectorStore.self st)))%Z) (ids r) /\
     length (nodes r) = length (ids r) /\
     exists scores,
       SparseVectorStore.get_scores tokenize (SparseVectorStore.self st) query = Return scores /\
       similarities r = map (fun p => nth p scores 0%float) (ids r)).
Proof.
  split; [apply sparse_query_state|].
  intros Hsort r. rewrite sparse_query_unfold.
  destruct (SparseVectorStore.get_scores _ _ _) as [scores|] eqn:Hs; [|discriminate].
  cbv zeta.
  destruct (map_outcome _ _) as [ns|] eqn:E; [|discriminate].
  cbn [fst]. intros [= <-]. cbn [ids nodes similarities].
  split; [apply (top_positions_distinct argsort Hsort)|]. split; [|split].
  - apply Forall_forall. intros p Hin.
    apply (top_positions_in_range argsort Hsort) in Hin.
    apply get_scores_length in Hs. lia.
  - apply map_outcome_returns in E. symmetry. exact (Forall2_length E).
  - exists scores. auto.
Qed.

(** X6: [batch_query] of the sparse store is [query] for each of the
    queries against the same store, in their order: it returns the list
    of their results, or raises what the first failing query raises, and
    leaves the store and the world as they were. *)
Theorem sparse_batch_query_is_query_for_each
    (tokenize : string -> list string) (argsort : list float -> list nat)
    (queries : list string) (top_k : Z)
    (st : SparseVectorStore.state) :
  SparseVectorStore.batch_query tokenize argsort queries top_k st
  = (map_outcome (fun q => fst (SparseVectorStore.query tokenize argsort q top_k st)) queries,
     st).
Proof.
  induction queries as [|q queries IH]; [reflexivity|].
  cbn [SparseVectorStore.batch_query map_outcome]. run_monad.
  pose proof (sparse_query_state tokenize argsort q top_k st) as Hst.
  destruct (SparseVectorStore.query tokenize argsort q top_k st) as [[r|e] st1];
    cbn [fst snd] in *; subst st1; [|reflexivity].
  rewrite IH. destruct (map_outcome _ queries); reflexivity.
Qed.

(** ** The scores of an index whose sequences agree in length *)

Lemma score_token_returns (s : SparseVectorStore.t) (score : list float) (q : string) :
  length (doc_freqs (SparseVectorStore.assets s)) = length score ->
  length (doc_len (SparseVectorStore.assets s)) = length score ->
  exists score', SparseVectorStore.score_token s score q = Return score'.
Proof.
  intros Hf Hl. unfold SparseVectorStore.score_token, broadcast2.
  rewrite !length_map, Hf, Hl, Nat.eqb_refl.
  unfold iadd. rewrite !length_map, length_combine, !length_map, Hf, Hl, Nat.min_id, Nat.eqb_refl.
  eauto.
Qed.

Lemma score_tokens_returns (s : SparseVectorStore.t) (tokens : list string)
    (score : list float) :
  length (doc_freqs (SparseVectorStore.assets s)) = length score ->
  length (doc_len (SparseVectorStore.assets s)) = length score ->
  exists score', SparseVectorStore.score_tokens s score tokens = Return score'.
Proof.
  revert score. induction tokens as [|q tokens IH]; intros score Hf Hl; cbn; [eauto|].
  destruct (score_token_returns s score q Hf Hl) as [score1 E]. rewrite E.
  assert (Hlen : length score1 = length score).
  { unfold SparseVectorStore.score_token in E.
    destruct (broadcast2 _ _ _); [|discriminate]. now apply iadd_length in E. }
  apply IH; congruence.
Qed.

Lemma get_scores_returns (tokenize : string -> list string)
    (s : SparseVectorStore.t) (query : string) (n : nat) :
  corpus_size (SparseVectorStore.assets s) = Z.of_nat n ->
  length (doc_freqs (SparseVectorStore.assets s)) = n ->
  length (doc_len (SparseVectorStore.assets s)) = n ->
  exists scores,
    SparseVectorStore.get_scores tokenize s query = Return scores /\
    length scores = n.
Proof.
  intros Hc Hf Hl. unfold SparseVectorStore.get_scores, np_zeros. rewrite Hc.
  replace (Z.of_nat n <? 0)%Z with false by (symmetry; apply Z.ltb_ge; lia).
  rewrite Nat2Z.id.
  destruct (score_tokens_returns s (tokenize query) (repeat 0%float n)) as [scores E];
    rewrite ?repeat_length; auto.
  exists scores. split; [exact E|].
  apply score_tokens_length in E. now rewrite E, repeat_length.
Qed.

(** X7: [get_scores] returns one score per document whenever the
    statistics agree with each other, that is, [corpus_size] is the
    length of both [doc_freqs] and [doc_len]: no query, no parameter and
    no value of [avgdl] or [idf] makes it raise then.  Whenever it
    returns, it returns [corpus_size] scores; a negative [corpus_size]
    makes it raise [ValueError]. *)
Theorem sparse_get_scores_returns_one_score_per_document
    (tokenize : string -> list string) (s : SparseVectorStore.t) (query : string) :
  let a := SparseVectorStore.assets s in
  (corpus_size a = Z.of_nat (length (doc_freqs a)) ->
   length (doc_len a) = length (doc_freqs a) ->
   exists scores, SparseVectorStore.get_scores tokenize s query = Return scores) /\
  (forall scores,
     SparseVectorStore.get_scores tokenize s query = Return scores ->
     Z.of_nat (length scores) = corpus_size a) /\
  ((corpus_size a < 0)%Z ->
   SparseVectorStore.get_scores tokenize s query = Raise ValueError).
Proof.
  cbv zeta. split; [|split].
  - intros Hc Hl.
    destruct (get_scores_returns tokenize s query _ Hc eq_refl Hl) as (scores & E & _).
    eauto.
  - intros scores E. pose proof (get_scores_length _ _ _ _ E) as Hlen.
    unfold SparseVectorStore.get_scores, np_zeros in E.
    destruct (corpus_size (SparseVectorStore.assets s) <? 0)%Z eqn:Hn; [discriminate|].
    apply Z.ltb_ge in Hn. lia.
  - intros Hn. unfold SparseVectorStore.get_scores, np_zeros.
    apply Z.ltb_lt in Hn. now rewrite Hn.
Qed.

(** ** A query without tokens *)

Lemma nth_repeat_zero (n p : nat) : nth p (repeat 0%float n) 0%float = 0%float.
Proof.
  revert p. induction n as [|n IH]; intros [|p]; cbn; auto.
Qed.

(** X8: a query in which the tokenizer finds no token scores every
    document 0, so the ranking carries no information: [query] of the
    sparse store hands out the first [top_k] of whatever order
    [np.argsort] gives [corpus_size] equal scores, read backwards, each
    with similarity 0, provided the names of these positions are keys
    of the node map (the first name that is not raises [KeyError]).
    With a negative [corpus_size] the query raises [ValueError]. *)
Theorem sparse_query_without_tokens_scores_every_document_zero
    (tokenize : string -> list string) (argsort : list float -> list nat)
    (query : string) (top_k : Z) (st : SparseVectorStore.state) :
  tokenize query = [] ->
  let size := corpus_size (SparseVectorStore.assets (SparseVectorStore.self st)) in
  let d := SparseVectorStore.node_dict (SparseVectorStore.self st) in
  let scores := repeat 0%float (Z.to_nat size) in
  let doc_ids := slice_to top_k (rev (argsort scores)) in
  SparseVectorStore.get_scores tokenize (SparseVectorStore.self st) query
  = (if (size <? 0)%Z then Raise ValueError else Return scores) /\
  fst (SparseVectorStore.query tokenize argsort query top_k st)
  = if (size <? 0)%Z then Raise ValueError
    else
      match map_outcome (fun p => Dict.item (str p) d) doc_ids with
      | Raise e => Raise e
      | Return result_nodes =>
          Return (mkResult result_nodes (repeat 0%float (length doc_ids)) doc_ids)
      end.
Proof.
  intros Ht. cbv zeta.
  assert (Hs : SparseVectorStore.get_scores tokenize (SparseVectorStore.self st) query
               = if (corpus_size (SparseVectorStore.assets (SparseVectorStore.self st)) <? 0)%Z
                 then Raise ValueError
                 else Return (repeat 0%float
                                (Z.to_nat (corpus_size (SparseVectorStore.assets
                                                          (SparseVectorStore.self st)))))).
  { unfold SparseVectorStore.get_scores, np_zeros. rewrite Ht.
    destruct (_ <? 0)%Z; reflexivity. }
  split; [exact Hs|].
  rewrite sparse_query_unfold, Hs.
  destruct (_ <? 0)%Z; [reflexivity|]. cbv zeta.
  destruct (map_outcome _ _); [|reflexivity].
  cbn [fst]. do 2 f_equal.
  rewrite <- map_const_repeat. apply map_ext. intros p. apply nth_repeat_zero.
Qed.

(** ** The nodes of the pipeline script in the sparse store *)

Lemma enumerate_from_fst {A} (start : nat) (l : list A) :
  map fst (Main.enumerate_from start l) = seq start (length l).
Proof.
  revert start. induction l as [|x l IH]; intros start; cbn; [reflexivity|].
  now rewrite IH.
Qed.

Lemma enumerate_from_snd {A} (start : nat) (l : list A) :
  map snd (Main.enumerate_from start l) = l.
Proof.
  revert start. induction l as [|x l IH]; intros start; cbn; [reflexivity|].
  now rewrite IH.
Qed.

Lemma prepare_data_nodes_ids (parsed : list (string * Dict.t string)) :
  map id_ (Main.prepare_data_nodes parsed) = map str (seq 0 (length parsed)).
Proof.
  unfold Main.prepare_data_nodes. rewrite map_map. cbn [id_].
  rewrite <- (enumerate_from_fst 0 parsed), map_map. reflexivity.
Qed.

Lemma prepare_data_nodes_length (parsed : list (string * Dict.t string)) :
  length (Main.prepare_data_nodes parsed) = length parsed.
Proof.
  rewrite <- (length_map id_), prepare_data_nodes_ids, length_map. apply length_seq.
Qed.

Lemma NoDup_map_str (l : list nat) : NoDup l -> NoDup (map str l).
Proof.
  induction 1 as [|x l Hx Hl IH]; cbn; constructor; [|assumption].
  intros Hin. apply in_map_iff in Hin as (y & Hy & Hin).
  apply str_inj in Hy. now subst y.
Qed.

Lemma dict_set_new {V} (k : string) (v : V) (d : Dict.t V) :
  ~ In k (Dict.keys d) -> Dict.set k v d = d ++ [(k, v)].
Proof.
  induction d as [|[k' v'] d IH]; cbn; intros Hn; [reflexivity|].
  destruct (String.eqb k k') eqn:E.
  - apply String.eqb_eq in E. subst. exfalso. auto.
  - rewrite IH; auto.
Qed.

Lemma inserted_new (nodes : list TextNode) (d : Dict.t TextNode) :
  NoDup (Dict.keys d ++ map id_ nodes) ->
  inserted nodes d = d ++ map (fun node => (id_ node, node)) nodes.
Proof.
  revert d. induction nodes as [|n nodes IH]; intros d Hn; cbn.
  - now rewrite app_nil_r.
  - fold (inserted nodes (Dict.set (id_ n) n d)).
    assert (Hnew : ~ In (id_ n) (Dict.keys d)).
    { intros Hin. apply NoDup_remove_2 in Hn. apply Hn. apply in_or_app. now left. }
    rewrite (dict_set_new _ _ _ Hnew), IH.
    + now rewrite <- app_assoc.
    + unfold Dict.keys in *. rewrite map_app, <- app_assoc. exact Hn.
Qed.

(** X9: the nodes [prepare_data_nodes] makes carry the names of their
    positions as ids.  Added to a sparse store without nodes they become
    its node map in their order, [add] returns the names
    [str(0), ..., str(n-1)], and every query on the store returns then, for
    every [top_k]: no position is looked up in vain, and the node beside
    an id [p] of a result is the [p]-th node that was prepared; this
    holds for every order [np.argsort] may return. *)
Theorem sparse_store_of_prepared_nodes_answers_every_query
    (tokenize : string -> list string) (ln : float -> float)
    (argsort : list float -> list nat)
    (parsed : list (string * Dict.t string)) (st : SparseVectorStore.state) :
  numpy_argsort argsort ->
  SparseVectorStore.node_dict (SparseVectorStore.self st) = [] ->
  parsed <> [] ->
  let prepared := Main.prepare_data_nodes parsed in
  let st' := snd (SparseVectorStore.add tokenize ln prepared st) in
  map text prepared = map fst parsed /\
  fst (SparseVectorStore.add tokenize ln prepared st)
  = Return (map str (seq 0 (length parsed))) /\
  Dict.keys (SparseVectorStore.node_dict (SparseVectorStore.self st'))
  = map str (seq 0 (length parsed)) /\
  Dict.values (SparseVectorStore.node_dict (SparseVectorStore.self st')) = prepared /\
  forall query top_k,
    exists r,
      SparseVectorStore.query tokenize argsort query top_k st' = (Return r, st') /\
      Forall2 (fun p node => nth_error prepared p = Some node) (ids r) (nodes r).
Proof.
  intros Hsort He Hne. cbv zeta.
  set (prepared := Main.prepare_data_nodes parsed).
  assert (Hd : inserted prepared (SparseVectorStore.node_dict (SparseVectorStore.self st))
               = map (fun node => (id_ node, node)) prepared).
  { rewrite He. apply (inserted_new prepared []). cbn.
    unfold prepared. rewrite prepare_data_nodes_ids. apply NoDup_map_str, seq_NoDup. }
  assert (Hp : prepared <> []).
  { intros H. apply (f_equal (@length _)) in H. unfold prepared in H.
    rewrite prepare_data_nodes_length in H. destruct parsed; [congruence|discriminate]. }
  pose proof (sparse_add_self tokenize ln prepared st) as Hself.
  pose proof (sparse_add_unfold tokenize ln prepared st) as Hadd.
  cbv zeta in Hself, Hadd.
  cbn [SparseVectorStore.node_dict SparseVectorStore.set_node_dict] in Hself, Hadd.
  rewrite Hd in Hself, Hadd.
  destruct (map (fun node => (id_ node, node)) prepared) as [|kv rest] eqn:Em.
  { destruct prepared; [congruence|discriminate]. }
  rewrite <- Em in *. clear kv rest Em.
  set (st' := snd (SparseVectorStore.add tokenize ln prepared st)) in *.
  set (d' := map (fun node => (id_ node, node)) prepared) in *.
  assert (Hnd : SparseVectorStore.node_dict (SparseVectorStore.self st') = d').
  { rewrite Hself. reflexivity. }
  assert (Hkeys : Dict.keys d' = map str (seq 0 (length parsed))).
  { unfold d', Dict.keys. rewrite map_map. cbn [fst].
    unfold prepared. apply prepare_data_nodes_ids. }
  assert (Hvals : Dict.values d' = prepared).
  { unfold d', Dict.values. rewrite map_map. cbn [snd]. apply map_id. }
  assert (Hlen : length d' = length parsed).
  { unfold d'. rewrite length_map. apply prepare_data_nodes_length. }
  split; [|split; [|split; [|split]]].
  - unfold prepared, Main.prepare_data_nodes. rewrite !map_map. cbn [text].
    rewrite <- (enumerate_from_snd 0 parsed) at 2. now rewrite map_map.
  - rewrite Hadd. cbn [fst]. f_equal. unfold prepared. apply prepare_data_nodes_ids.
  - now rewrite Hnd.
  - now rewrite Hnd.
  - intros query top_k.
    assert (Ha : SparseVectorStore.assets (SparseVectorStore.self st')
                 = built ln (corpus_of tokenize (SparseVectorStore.self st'))).
    { rewrite Hself at 1. cbn [SparseVectorStore.assets SparseVectorStore.set_assets].
      f_equal. unfold corpus_of. rewrite Hnd. reflexivity. }
    destruct (built_fields ln (corpus_of tokenize (SparseVectorStore.self st')))
      as (H1 & _ & H3 & H4 & _).
    destruct (get_scores_returns tokenize
                (SparseVectorStore.self st') query (length d')) as (scores & Hs & Hsl).
    { rewrite Ha, H1, corpus_of_length, Hnd. reflexivity. }
    { rewrite Ha, H3, length_map, corpus_of_length, Hnd. reflexivity. }
    { rewrite Ha, H4, length_map, corpus_of_length, Hnd. reflexivity. }
    rewrite sparse_query_unfold, Hs. cbv zeta. rewrite Hnd.
    set (doc_ids := slice_to top_k (rev (argsort scores))).
    assert (Hall : forall p, In p doc_ids ->
                     Dict.item (str p) d' = match nth_error prepared p with
                                            | Some node => Return node
                                            | None => Raise (KeyError (str p))
                                            end /\ p < length prepared).
    { intros p Hin. apply (top_positions_in_range argsort Hsort) in Hin.
      assert (Hlt : p < length parsed) by lia.
      pose proof (dict_get_positional d' 0 p) as Hg.
      rewrite Hkeys, Hlen in Hg. specialize (Hg eq_refl Hlt).
      cbn [Nat.add] in Hg. rewrite Hvals in Hg.
      unfold Dict.item. rewrite Hg. split; [reflexivity|].
      unfold prepared. rewrite prepare_data_nodes_length. exact Hlt. }
    destruct (map_outcome_all (fun p => Dict.item (str p) d') doc_ids) as [ns E].
    { intros p Hin. destruct (Hall p Hin) as [-> Hlt].
      destruct (nth_error prepared p) eqn:N; [eauto|].
      apply nth_error_None in N. lia. }
    rewrite E. eexists. split; [reflexivity|]. cbn [ids nodes].
    apply map_outcome_returns in E.
    induction E as [|p n ps ns' Hpn E IH]; constructor.
    + destruct (Hall p (or_introl eq_refl)) as [Hi _]. rewrite Hi in Hpn.
      destruct (nth_error prepared p); congruence.
    + apply IH. intros p' Hin'. apply Hall. now right.
Qed.

(** ** What [add] does to the dense store *)

Lemma embedded_id (embed : string -> list float) (n : TextNode) :
  id_ (embedded embed n) = id_ n.
Proof. unfold embedded. destruct (embedding n); reflexivity. Qed.

Lemma embedded_idem (embed : string -> list float) (n : TextNode) :
  embedded embed (embedded embed n) = embedded embed n.
Proof. unfold embedded. destruct (embedding n) eqn:E; cbn; now rewrite ?E. Qed.

Lemma embedded_embedding (embed : string -> list float) (n : TextNode) :
  embedding (embedded embed n)
  = Some match embedding n with Some e => e | None => embed (text n) end.
Proof. unfold embedded. destruct (embedding n) eqn:E; cbn; now rewrite ?E. Qed.

Lemma inserted_refs_ext (h h' : SemanticVectorStore.heap)
    (nodes : list SemanticVectorStore.ref) (d : Dict.t SemanticVectorStore.ref) :
  (forall r, id_ (h r) = id_ (h' r)) ->
  inserted_refs h nodes d = inserted_refs h' nodes d.
Proof.
  intros Hid. revert d. induction nodes as [|n nodes IH]; intros d; [reflexivity|].
  cbn. rewrite Hid. apply IH.
Qed.

(** One round of the loop of [add] *)
Lemma dense_add_node_objects (embed : string -> list float)
    (node : SemanticVectorStore.ref) (st : SemanticVectorStore.state) :
  let st' := snd (SemanticVectorStore.add_node embed node st) in
  fst (SemanticVectorStore.add_node embed node st) = Return tt /\
  SemanticVectorStore.self st'
  = SemanticVectorStore.set_node_dict
      (Dict.set (id_ (SemanticVectorStore.objects st node)) node
         (SemanticVectorStore.node_dict (SemanticVectorStore.self st)))
      (SemanticVectorStore.self st) /\
  (forall r, SemanticVectorStore.objects st' r
             = if Nat.eqb r node then embedded embed (SemanticVectorStore.objects st node)
               else SemanticVectorStore.objects st r) /\
  fs (SemanticVectorStore.world st') = fs (SemanticVectorStore.world st).
Proof.
  unfold SemanticVectorStore.add_node, SemanticVectorStore.logger,
    SemanticVectorStore._get_text_embedding. run.
  destruct (embedding (SemanticVectorStore.objects st node)) eqn:E; run.
  - repeat split.
    intros r. destruct (Nat.eqb_spec r node) as [->|]; [|reflexivity].
    unfold embedded. now rewrite E.
  - unfold SemanticVectorStore.update. rewrite Nat.eqb_refl.
    cbn [id_ SemanticVectorStore.set_embedding]. repeat split.
    intros r. destruct (Nat.eqb r node); [|reflexivity].
    unfold embedded, SemanticVectorStore.set_embedding. now rewrite E.
Qed.

Lemma dense_for_each_add_node (embed : string -> list float)
    (nodes : list SemanticVectorStore.ref) (st : SemanticVectorStore.state) :
  let st' := snd (for_each nodes (SemanticVectorStore.add_node embed) st) in
  fst (for_each nodes (SemanticVectorStore.add_node embed) st) = Return tt /\
  SemanticVectorStore.self st'
  = SemanticVectorStore.set_node_dict
      (inserted_refs (SemanticVectorStore.objects st) nodes
         (SemanticVectorStore.node_dict (SemanticVectorStore.self st)))
      (SemanticVectorStore.self st) /\
  (forall r, SemanticVectorStore.objects st' r
             = if existsb (Nat.eqb r) nodes
               then embedded embed (SemanticVectorStore.objects st r)
               else SemanticVectorStore.objects st r) /\
  fs (SemanticVectorStore.world st') = fs (SemanticVectorStore.world st).
Proof.
  revert st. induction nodes as [|n nodes IH]; intros st; cbv zeta.
  - cbn. destruct st as [[d p f sf em] h w]. repeat split.
  - cbn [for_each existsb]. run_monad.
    destruct (dense_add_node_objects embed n st) as (A1 & A2 & A3 & A4).
    destruct (SemanticVectorStore.add_node embed n st) as [o st1].
    cbn [fst snd] in *. subst o.
    destruct (IH st1) as (B1 & B2 & B3 & B4).
    split; [exact B1|]. split; [|split].
    + rewrite B2, A2.
      cbn [SemanticVectorStore.node_dict SemanticVectorStore.set_node_dict
           SemanticVectorStore.persist SemanticVectorStore.force_index
           SemanticVectorStore.saved_file SemanticVectorStore.embed_model_name].
      cbn [inserted_refs fold_left].
      rewrite (inserted_refs_ext (SemanticVectorStore.objects st1)
                 (SemanticVectorStore.objects st)); [reflexivity|].
      intros r. rewrite A3. destruct (Nat.eqb_spec r n) as [->|]; [|reflexivity].
      apply embedded_id.
    + intros r. rewrite B3, A3.
      destruct (Nat.eqb_spec r n) as [->|]; cbn [orb]; [|reflexivity].
      destruct (existsb (Nat.eqb n) nodes); [apply embedded_idem|reflexivity].
    + congruence.
Qed.

Lemma dense_add_unfold (embed : string -> list float)
    (nodes : list SemanticVectorStore.ref) (st : SemanticVectorStore.state) :
  let st' := snd (SemanticVectorStore.add embed nodes st) in
  fst (SemanticVectorStore.add embed nodes st)
  = Return (map (fun node => id_ (SemanticVectorStore.objects st node)) nodes) /\
  SemanticVectorStore.self st'
  = SemanticVectorStore.set_node_dict
      (inserted_refs (SemanticVectorStore.objects st) nodes
         (SemanticVectorStore.node_dict (SemanticVectorStore.self st)))
      (SemanticVectorStore.self st) /\
  (forall r, SemanticVectorStore.objects st' r
             = if existsb (Nat.eqb r) nodes
               then embedded embed (SemanticVectorStore.objects st r)
               else SemanticVectorStore.objects st r).
Proof.
  cbv zeta. unfold SemanticVectorStore.add. run_monad.
  destruct (dense_for_each_add_node embed nodes st) as (A1 & A2 & A3 & _).
  destruct (for_each nodes (SemanticVectorStore.add_node embed) st) as [o st1].
  cbn [fst snd] in *. subst o.
  destruct (dense_update_csv_self st1) as (U1 & U2 & U3).
  destruct (SemanticVectorStore._update_csv st1) as [o st2].
  cbn [fst snd] in *. subst o. cbn [fst snd].
  split; [|split].
  - f_equal. apply map_ext. intros r. rewrite U3, A3.
    destruct (existsb (Nat.eqb r) nodes); [apply embedded_id|reflexivity].
  - now rewrite U2.
  - intros r. now rewrite U3.
Qed.

Lemma existsb_eqb_in (r : nat) (l : list nat) : existsb (Nat.eqb r) l = true <-> In r l.
Proof.
  rewrite existsb_exists. split.
  - intros (x & Hin & E). apply Nat.eqb_eq in E. now subst.
  - intros Hin. exists r. split; [assumption|apply Nat.eqb_refl].
Qed.

(** X10: [add] of the dense store always returns, with the ids of the
    given nodes in their order.  It works on the node objects it is
    given: a node without an embedding gets the embedding of its text, a
    node with an embedding keeps it, every other object is left alone;
    ids never change.  The node map is the old one after the given
    nodes were stored under their ids, one after the other. *)
Theorem dense_add_fills_in_missing_embeddings_in_place
    (embed : string -> list float)
    (nodes : list SemanticVectorStore.ref) (st : SemanticVectorStore.state) :
  let result := SemanticVectorStore.add embed nodes st in
  let st' := snd result in
  fst result = Return (map (fun node => id_ (SemanticVectorStore.objects st node)) nodes) /\
  SemanticVectorStore.node_dict (SemanticVectorStore.self st')
  = inserted_refs (SemanticVectorStore.objects st) nodes
      (SemanticVectorStore.node_dict (SemanticVectorStore.self st)) /\
  (forall node, In node nodes ->
     SemanticVectorStore.objects st' node = embedded embed (SemanticVectorStore.objects st node) /\
     embedding (SemanticVectorStore.objects st' node)
     = Some match embedding (SemanticVectorStore.objects st node) with
            | Some e => e
            | None => embed (text (SemanticVectorStore.objects st node))
            end) /\
  (forall r, ~ In r nodes ->
     SemanticVectorStore.objects st' r = SemanticVectorStore.objects st r) /\
  (forall r, id_ (SemanticVectorStore.objects st' r) = id_ (SemanticVectorStore.objects st r)).
Proof.
  cbv zeta. destruct (dense_add_unfold embed nodes st) as (H1 & H2 & H3).
  split; [exact H1|]. split; [now rewrite H2|]. split; [|split].
  - intros node Hin. apply existsb_eqb_in in Hin.
    rewrite H3, Hin. split; [reflexivity|apply embedded_embedding].
  - intros r Hn. rewrite H3.
    destruct (existsb (Nat.eqb r) nodes) eqn:E; [|reflexivity].
    apply existsb_eqb_in in E. contradiction.
  - intros r. rewrite H3.
    destruct (existsb (Nat.eqb r) nodes); [apply embedded_id|reflexivity].
Qed.

(** ** Queries after [add] *)

Lemma dict_set_values {V} (k : string) (v x : V) (d : Dict.t V) :
  In x (Dict.values (Dict.set k v d)) -> x = v \/ In x (Dict.values d).
Proof.
  induction d as [|[k' v'] d IH]; cbn.
  - intros [<-|[]]. now left.
  - destruct (String.eqb k k'); cbn.
    + intros [<-|H]; auto.
    + intros [<-|H]; auto. destruct (IH H); auto.
Qed.

Lemma inserted_refs_values (h : SemanticVectorStore.heap)
    (nodes : list SemanticVectorStore.ref) (d : Dict.t SemanticVectorStore.ref)
    (r : SemanticVectorStore.ref) :
  In r (Dict.values (inserted_refs h nodes d)) -> In r nodes \/ In r (Dict.values d).
Proof.
  revert d. induction nodes as [|n nodes IH]; intros d; cbn; [auto|].
  intros H. apply IH in H. destruct H as [H|H]; [auto|].
  apply dict_set_values in H. destruct H as [->|H]; auto.
Qed.

Lemma inserted_refs_not_empty (h : SemanticVectorStore.heap)
    (nodes : list SemanticVectorStore.ref) (d : Dict.t SemanticVectorStore.ref) :
  inserted_refs h nodes d = [] -> nodes = [] /\ d = [].
Proof.
  revert d. induction nodes as [|n nodes IH]; intros d H; [auto|].
  cbn in H. apply IH in H. destruct H as [_ H].
  exfalso. exact (dict_set_not_empty _ _ _ H).
Qed.

(** X11: with an embedding model whose vectors all have [dim]
    components, [add] keeps a dense store fit for queries: if every
    stored node carried an embedding of [dim] components before, and so
    does every given node that comes with an embedding, then the same
    holds afterwards, and every query returns, for every [top_k],
    without changing the store or logging; the node beside an id of the
    result is the one the node map holds for it. *)
Theorem dense_add_keeps_the_store_fit_for_queries
    (embed : string -> list float) (dim : nat)
    (given : list SemanticVectorStore.ref) (st : SemanticVectorStore.state) :
  (forall s, length (embed s) = dim) ->
  conforming dim (doc_embeddings_of st) ->
  (forall node v, In node given ->
     embedding (SemanticVectorStore.objects st node) = Some v -> length v = dim) ->
  given <> [] ->
  let st' := snd (SemanticVectorStore.add embed given st) in
  let d' := SemanticVectorStore.node_dict (SemanticVectorStore.self st') in
  conforming dim (doc_embeddings_of st') /\
  forall query top_k,
    exists r,
      SemanticVectorStore.query embed query top_k st' = (Return r, st') /\
      Forall2 (fun node_id node => Dict.get node_id d' = Some node) (ids r) (nodes r).
Proof.
  intros Hdim Hc Hn Hne. cbv zeta.
  destruct (dense_add_unfold embed given st) as (_ & H2 & H3).
  set (st' := snd (SemanticVectorStore.add embed given st)) in *.
  assert (Hc' : conforming dim (doc_embeddings_of st')).
  { unfold conforming, doc_embeddings_of in *. rewrite Forall_forall in *.
    intros e Hin. apply in_map_iff in Hin as (r & <- & Hin).
    rewrite H2 in Hin. cbn [SemanticVectorStore.node_dict SemanticVectorStore.set_node_dict] in Hin.
    rewrite H3. destruct (existsb (Nat.eqb r) given) eqn:E.
    - apply existsb_eqb_in in E. rewrite embedded_embedding.
      eexists. split; [reflexivity|].
      destruct (embedding (SemanticVectorStore.objects st r)) eqn:Ee; [|apply Hdim].
      exact (Hn r l E Ee).
    - apply inserted_refs_values in Hin. destruct Hin as [Hin|Hin].
      + apply existsb_eqb_in in Hin. congruence.
      + apply Hc. apply in_map_iff. now exists r. }
  split; [exact Hc'|].
  intros query top_k.
  destruct (dense_query_conforming embed query top_k st') as (ns & Hq & Hf).
  - rewrite H2. cbn [SemanticVectorStore.node_dict SemanticVectorStore.set_node_dict].
    intros H. apply inserted_refs_not_empty in H. destruct H. contradiction.
  - now rewrite Hdim.
  - cbv zeta in Hq. eexists. split; [exact Hq|]. exact Hf.
Qed.

(** ** [delete] of the dense store *)

Lemma dict_get_del_other {V} (k k0 : string) (d : Dict.t V) :
  k0 <> k -> Dict.get k0 (Dict.del k d) = Dict.get k0 d.
Proof.
  intros Hne. induction d as [|[k' v'] d IH]; cbn; [reflexivity|].
  destruct (String.eqb k k') eqn:E.
  - apply String.eqb_eq in E. subst k'.
    destruct (String.eqb k0 k) eqn:E0; [apply String.eqb_eq in E0; contradiction|reflexivity].
  - cbn. now rewrite IH.
Qed.

Lemma dict_get_del_same {V} (k : string) (d : Dict.t V) :
  NoDup (Dict.keys d) -> Dict.get k (Dict.del k d) = None.
Proof.
  induction d as [|[k' v'] d IH]; cbn; [reflexivity|].
  intros Hn. inversion Hn as [|? ? Hk Hd]; subst.
  destruct (String.eqb k k') eqn:E.
  - apply String.eqb_eq in E. subst k'. now apply dict_get_none_keys.
  - cbn. rewrite E. now apply IH.
Qed.

Lemma filter_all {A} (f : A -> bool) (l : list A) :
  (forall x, In x l -> f x = true) -> filter f l = l.
Proof.
  induction l as [|x l IH]; intros H; cbn; [reflexivity|].
  rewrite (H x) by (now left). f_equal. apply IH. intros y Hy. apply H. now right.
Qed.

Lemma dict_del_keys {V} (k : string) (d : Dict.t V) :
  NoDup (Dict.keys d) ->
  Dict.keys (Dict.del k d) = filter (fun k' => negb (String.eqb k k')) (Dict.keys d).
Proof.
  induction d as [|[k' v'] d IH]; cbn; [reflexivity|].
  intros Hn. inversion Hn as [|? ? Hk Hd]; subst.
  destruct (String.eqb k k') eqn:E; cbn.
  - apply String.eqb_eq in E. subst k'. symmetry. apply filter_all.
    intros x Hx. destruct (String.eqb k x) eqn:Ex; [|reflexivity].
    apply String.eqb_eq in Ex. subst x. contradiction.
  - f_equal. now apply IH.
Qed.

(** X12: [delete] of the dense store, given an id the node map has,
    returns and takes exactly this entry out of the map: the id is
    mapped to nothing afterwards, every other id is mapped as before and
    the remaining keys keep their order; no node object is touched and
    no error is logged.  (The keys of a Python dict are pairwise
    different.) *)
Theorem dense_delete_removes_the_entry_of_the_id
    (node_id : string) (node : SemanticVectorStore.ref) (st : SemanticVectorStore.state) :
  let d := SemanticVectorStore.node_dict (SemanticVectorStore.self st) in
  Dict.get node_id d = Some node ->
  NoDup (Dict.keys d) ->
  let result := SemanticVectorStore.delete node_id st in
  let st' := snd result in
  let d' := SemanticVectorStore.node_dict (SemanticVectorStore.self st') in
  fst result = Return tt /\
  Dict.get node_id d' = None /\
  (forall k, k <> node_id -> Dict.get k d' = Dict.get k d) /\
  Dict.keys d' = filter (fun k => negb (String.eqb node_id k)) (Dict.keys d) /\
  SemanticVectorStore.objects st' = SemanticVectorStore.objects st /\
  ~ In (LogError (not_found_message node_id))
       (skipn (length (events (SemanticVectorStore.world st)))
          (events (SemanticVectorStore.world st'))).
Proof.
  intros d Hg Hn. cbv zeta. unfold SemanticVectorStore.delete. run.
  fold d. unfold Dict.mem. rewrite Hg. run.
  set (st1 := SemanticVectorStore.mkState _ _ _).
  destruct (dense_update_csv_self st1) as (U1 & U2 & U3).
  assert (Hw : events (SemanticVectorStore.world (snd (SemanticVectorStore._update_csv st1)))
               = events (SemanticVectorStore.world st)
                 ++ (if SemanticVectorStore.persist (SemanticVectorStore.self st)
                     then [WroteCsv (SemanticVectorStore.saved_file (SemanticVectorStore.self st))
                             (SemanticVectorStore.rows st1)]
                     else [])).
  { unfold SemanticVectorStore._update_csv. unfold st1 at 1.
    cbn [SemanticVectorStore.self SemanticVectorStore.persist
         SemanticVectorStore.set_node_dict].
    destruct (SemanticVectorStore.persist (SemanticVectorStore.self st)).
    - reflexivity.
    - cbn. now rewrite app_nil_r. }
  rewrite U2, U3, Hw. split; [exact U1|].
  unfold st1. cbn [SemanticVectorStore.self SemanticVectorStore.objects
                   SemanticVectorStore.node_dict SemanticVectorStore.set_node_dict].
  split; [now apply dict_get_del_same|].
  split; [intros k Hk; now apply dict_get_del_other|].
  split; [now apply dict_del_keys|].
  split; [reflexivity|].
  rewrite skipn_app, skipn_all, Nat.sub_diag. cbn [app skipn].
  destruct (SemanticVectorStore.persist _); cbn; [intros [H|[]]; discriminate|intros []].
Qed.

(** ** Queries of the dense store *)

Lemma dense_query_state (embed : string -> list float) (query : string) (top_k : Z)
    (st : SemanticVectorStore.state) :
  SemanticVectorStore.node_dict (SemanticVectorStore.self st) <> [] ->
  snd (SemanticVectorStore.query embed query top_k st) = st.
Proof.
  intros Hne. unfold SemanticVectorStore.query, SemanticVectorStore.lift. run.
  destruct (SemanticVectorStore.node_dict (SemanticVectorStore.self st)) as [|[k v] d];
    [congruence|].
  cbn [Dict.values map].
  destruct (SemanticVectorStore._calculate_similarity _ _ _ _); [|reflexivity].
  destruct (map_outcome _ _); reflexivity.
Qed.

(** X13: [batch_query] of the dense store is [query] for each of the
    queries, in their order.  Over a store with nodes it returns the
    list of their results, or raises what the first failing query
    raises, and leaves the store and the world as they were.  Over a
    store without nodes it returns one empty result per query and logs
    the error once per query. *)
Theorem dense_batch_query_is_query_for_each
    (embed : string -> list float) (queries : list string) (top_k : Z)
    (st : SemanticVectorStore.state) :
  let d := SemanticVectorStore.node_dict (SemanticVectorStore.self st) in
  (d <> [] ->
   SemanticVectorStore.batch_query embed queries top_k st
   = (map_outcome (fun q => fst (SemanticVectorStore.query embed q top_k st)) queries, st)) /\
  (d = [] ->
   SemanticVectorStore.batch_query embed queries top_k st
   = (Return (map (fun _ => mkResult [] [] []) queries),
      SemanticVectorStore.mkState (SemanticVectorStore.self st)
        (SemanticVectorStore.objects st)
        (mkWorld (fs (SemanticVectorStore.world st))
           (events (SemanticVectorStore.world st)
            ++ map (fun _ => LogError "No documents found in the index.") queries)))).
Proof.
  cbv zeta. split.
  - intros Hne. induction queries as [|q queries IH]; [reflexivity|].
    cbn [SemanticVectorStore.batch_query map_outcome]. run_monad.
    pose proof (dense_query_state embed q top_k st Hne) as Hst.
    destruct (SemanticVectorStore.query embed q top_k st) as [[r|e] st1];
      cbn [fst snd] in *; subst st1; [|reflexivity].
    rewrite IH. destruct (map_outcome _ queries); reflexivity.
  - revert st. induction queries as [|q queries IH]; intros st He.
    + cbn. rewrite app_nil_r. destruct st as [s h [f e]]. reflexivity.
    + cbn [SemanticVectorStore.batch_query map]. run_monad.
      rewrite (dense_query_empty embed q top_k st He).
      rewrite IH by exact He.
      cbn [SemanticVectorStore.self SemanticVectorStore.objects SemanticVectorStore.world
           fs events emit].
      now rewrite <- app_assoc.
Qed.

Lemma slice_to_all {A} (k : Z) (l : list A) :
  (Z.of_nat (length l) <= k)%Z -> slice_to k l = l.
Proof.
  intros H. unfold slice_to.
  replace (k <? 0)%Z with false by (symmetry; apply Z.ltb_ge; lia).
  apply firstn_all2. lia.
Qed.

(** X14: over a dense store with nodes that all carry an embedding of
    the dimension of the query embedding, [query] returns ids that are
    keys of the node map, none of them twice; with [top_k] at least the
    number of nodes every key comes back.  (The keys of a Python dict
    are pairwise different.) *)
Theorem dense_query_returns_distinct_keys
    (embed : string -> list float) (query : string) (top_k : Z)
    (st : SemanticVectorStore.state) :
  let d := SemanticVectorStore.node_dict (SemanticVectorStore.self st) in
  d <> [] ->
  NoDup (Dict.keys d) ->
  conforming (length (embed query)) (doc_embeddings_of st) ->
  exists r,
    SemanticVectorStore.query embed query top_k st = (Return r, st) /\
    NoDup (ids r) /\
    incl (ids r) (Dict.keys d) /\
    ((Z.of_nat (length d) <= top_k)%Z -> Permutation (ids r) (Dict.keys d)).
Proof.
  intros d Hne Hn Hc.
  destruct (dense_query_conforming embed query top_k st Hne Hc) as (ns & Hq & _).
  cbv zeta in Hq. eexists. split; [exact Hq|]. cbn [ids].
  set (c := candidates (embed query) (doc_embeddings_of st) (Dict.keys d)).
  assert (Hp : Permutation (map snd (sorted_reverse by_similarity c)) (Dict.keys d)).
  { rewrite sorted_reverse_sifted.
    rewrite (Permutation_map snd (sifted_perm by_similarity (rev c))).
    rewrite <- (Permutation_map snd (Permutation_rev c)).
    unfold c, candidates. rewrite map_snd_combine; [reflexivity|].
    unfold doc_embeddings_of, Dict.keys, Dict.values. now rewrite !length_map. }
  rewrite <- slice_to_map.
  assert (Hnd : NoDup (map snd (sorted_reverse by_similarity c))).
  { apply (Permutation_NoDup (l := Dict.keys d)); [now symmetry|assumption]. }
  split; [now apply NoDup_slice_to|]. split.
  - intros k Hin. apply in_slice_to in Hin. exact (Permutation_in _ Hp Hin).
  - intros Hk.
    assert (Hl : length (map snd (sorted_reverse by_similarity c)) = length d).
    { rewrite (Permutation_length Hp). unfold Dict.keys. apply length_map. }
    rewrite slice_to_all; [exact Hp|].
    change (Z.of_nat (length (map snd (sorted_reverse by_similarity c))) <= top_k)%Z.
    rewrite Hl. exact Hk.
Qed.

(** ** Construction of the sparse store *)

(** X15: when [__init__] of the sparse store finds nodes, a sidecar
    that is there is trusted unless [force_index] is set: the statistics
    become what the file holds, whatever the node map holds, and nothing
    is written.  With [force_index], or without a sidecar, the
    statistics are built from the node map and written to the sidecar. *)
Theorem sparse_init_trusts_the_sidecar
    (tokenize : string -> list string) (ln : float -> float)
    (st : SparseVectorStore.state) :
  let s := SparseVectorStore.self st in
  let path := SparseVectorStore.metadata_file s in
  SparseVectorStore.node_dict s <> [] ->
  (forall content,
     Dict.get path (fs (SparseVectorStore.world st)) = Some (JsonFile content) ->
     SparseVectorStore.force_index s = false ->
     SparseVectorStore.__init__ tokenize ln st
     = (Return tt,
        SparseVectorStore.mkState (SparseVectorStore.set_assets content s)
          (SparseVectorStore.world st))) /\
  (Dict.get path (fs (SparseVectorStore.world st)) = None \/
   SparseVectorStore.force_index s = true ->
   let a := built ln (corpus_of tokenize s) in
   SparseVectorStore.__init__ tokenize ln st
   = (Return tt,
      SparseVectorStore.mkState (SparseVectorStore.set_assets a s)
        (emit (WroteJson path a) (write_file path (JsonFile a) (SparseVectorStore.world st))))).
Proof.
  intros s path Hne. split.
  - intros content Hf Hfi. unfold SparseVectorStore.__init__. run.
    fold s. destruct (SparseVectorStore.node_dict s) eqn:Ed; [congruence|].
    fold path. unfold Dict.mem. rewrite Hf, Hfi. cbn [andb negb].
    unfold SparseVectorStore._load_from_json, SparseVectorStore.update_self. run.
    fold s. fold path. rewrite Hf. reflexivity.
  - intros Hc. cbv zeta. unfold SparseVectorStore.__init__. run.
    fold s. destruct (SparseVectorStore.node_dict s) eqn:Ed; [congruence|].
    fold path.
    assert (Hb : Dict.mem path (fs (SparseVectorStore.world st))
                 && negb (SparseVectorStore.force_index s) = false).
    { destruct Hc as [Hc|Hc].
      - unfold Dict.mem. now rewrite Hc.
      - rewrite Hc. apply andb_false_r. }
    rewrite Hb. rewrite rebuild_nonempty; [reflexivity|].
    fold s. rewrite Ed. discriminate.
Qed.

(** ** The further properties on the concrete stores *)

Lemma sparse_add_stores_the_last_node_of_an_id_witness :
  fst (SparseVectorStore.add Example.tokenize Example.ln
         [Example.node0; Example.node1] Example.sparse0)
  = Return (map id_ [Example.node0; Example.node1]) /\
  Dict.get "1" (SparseVectorStore.node_dict (SparseVectorStore.self Example.sparse2))
  = Some Example.node1.
Proof.
  pose proof (sparse_add_stores_the_last_node_of_an_id Example.tokenize Example.ln
                [Example.node0; Example.node1] Example.sparse0) as H.
  cbv zeta in H. destruct H as (_ & Hr & _ & Hg). split.
  - apply Hr. vm_compute. discriminate.
  - exact (Hg "1").
Defined.

Lemma sparse_add_leaves_statistics_of_the_node_map_witness :
  corpus_size (SparseVectorStore.assets (SparseVectorStore.self Example.sparse2)) = 2%Z /\
  doc_len (SparseVectorStore.assets (SparseVectorStore.self Example.sparse2)) = [3%Z; 3%Z].
Proof.
  pose proof (sparse_add_leaves_statistics_of_the_node_map Example.tokenize Example.ln
                [Example.node0; Example.node1] Example.sparse0 ["0"; "1"]) as H.
  cbv zeta in H. destruct H as (H1 & _ & _ & H4 & _).
  - vm_compute. reflexivity.
  - split.
    + etransitivity; [exact H1|]. vm_compute. reflexivity.
    + etransitivity; [exact H4|]. vm_compute. reflexivity.
Defined.

Lemma sparse_add_counts_the_tokens_witness :
  Dict.get "bird" (idf (SparseVectorStore.assets (SparseVectorStore.self Example.sparse2)))
  = None <->
  forall kv,
    In kv (SparseVectorStore.node_dict (SparseVectorStore.self Example.sparse2)) ->
    ~ In "bird" (Example.tokenize (text (snd kv))).
Proof.
  pose proof (sparse_add_counts_the_tokens Example.tokenize Example.ln
                [Example.node0; Example.node1] Example.sparse0 ["0"; "1"]) as H.
  cbv zeta in H. destruct H as (_ & H2 & _).
  - vm_compute. reflexivity.
  - exact (H2 "bird").
Defined.

Lemma sparse_query_reads_only_and_returns_distinct_positions_witness :
  snd (SparseVectorStore.query Example.tokenize Example.argsort "cat" 3 Example.sparse2)
  = Example.sparse2 /\
  forall r,
    fst (SparseVectorStore.query Example.tokenize Example.argsort "cat" 3 Example.sparse2)
    = Return r ->
    NoDup (ids r).
Proof.
  destruct (sparse_query_reads_only_and_returns_distinct_positions Example.tokenize
              Example.argsort "cat" 3 Example.sparse2) as (H1 & H2).
  split; [exact H1|]. intros r Hr. exact (proj1 (H2 example_argsort_numpy r Hr)).
Defined.

Lemma sparse_get_scores_returns_one_score_per_document_witness :
  exists scores,
    SparseVectorStore.get_scores Example.tokenize
      (SparseVectorStore.self Example.sparse2) "cat" = Return scores.
Proof.
  apply (proj1 (sparse_get_scores_returns_one_score_per_document Example.tokenize
                  (SparseVectorStore.self Example.sparse2) "cat")).
  - vm_compute. reflexivity.
  - vm_compute. reflexivity.
Defined.

Lemma sparse_query_without_tokens_scores_every_document_zero_witness :
  Example.tokenize "" = [] /\
  SparseVectorStore.get_scores Example.tokenize (SparseVectorStore.self Example.sparse2) ""
  = Return [0%float; 0%float].
Proof.
  split; [reflexivity|].
  etransitivity.
  - apply (proj1 (sparse_query_without_tokens_scores_every_document_zero Example.tokenize
                    Example.argsort "" 1 Example.sparse2 eq_refl)).
  - vm_compute. reflexivity.
Defined.

Lemma sparse_store_of_prepared_nodes_answers_every_query_witness :
  let parsed := [("the cat sat", []); ("the dog ran", [])] in
  let prepared := Main.prepare_data_nodes parsed in
  let st' := snd (SparseVectorStore.add Example.tokenize Example.ln prepared Example.sparse0) in
  fst (SparseVectorStore.add Example.tokenize Example.ln prepared Example.sparse0)
  = Return (map str (seq 0 (length parsed))) /\
  exists r,
    SparseVectorStore.query Example.tokenize Example.argsort "cat" 3 st' = (Return r, st').
Proof.
  cbv zeta.
  pose proof (sparse_store_of_prepared_nodes_answers_every_query Example.tokenize Example.ln
                Example.argsort [("the cat sat", []); ("the dog ran", [])] Example.sparse0) as H.
  cbv zeta in H. destruct H as (_ & Ha & _ & _ & Hq).
  - exact example_argsort_numpy.
  - reflexivity.
  - discriminate.
  - split; [exact Ha|]. destruct (Hq "cat" 3%Z) as (r & Hr & _). exists r. exact Hr.
Defined.

Lemma dense_add_fills_in_missing_embeddings_in_place_witness :
  embedding (SemanticVectorStore.objects
               (snd (SemanticVectorStore.add Example.embed [3] Example.dense0)) 3)
  = Some [1%float; 0%float].
Proof.
  pose proof (dense_add_fills_in_missing_embeddings_in_place Example.embed [3]
                Example.dense0) as H.
  cbv zeta in H. destruct H as (_ & _ & H & _).
  destruct (H 3 (or_introl eq_refl)) as (_ & He). exact He.
Defined.

Lemma dense_add_keeps_the_store_fit_for_queries_witness :
  exists r,
    SemanticVectorStore.query Example.embed "q" 3 Example.dense3 = (Return r, Example.dense3).
Proof.
  pose proof (dense_add_keeps_the_store_fit_for_queries Example.embed 2 [0; 1; 2]
                Example.dense0) as H.
  cbv zeta in H. destruct H as (_ & Hq).
  - intros s. reflexivity.
  - constructor.
  - intros node v [<-|[<-|[<-|[]]]] [= <-]; reflexivity.
  - discriminate.
  - destruct (Hq "q" 3%Z) as (r & Hr & _). exists r. exact Hr.
Defined.

Lemma example_dense3_keys :
  NoDup (Dict.keys (SemanticVectorStore.node_dict (SemanticVectorStore.self Example.dense3))).
Proof.
  change (NoDup ["a"; "b"; "c"]).
  repeat (constructor; [cbn; intuition discriminate|]). constructor.
Defined.

Lemma dense_delete_removes_the_entry_of_the_id_witness :
  Dict.get "b"
    (SemanticVectorStore.node_dict
       (SemanticVectorStore.self (snd (SemanticVectorStore.delete "b" Example.dense3))))
  = None.
Proof.
  pose proof (dense_delete_removes_the_entry_of_the_id "b" 1 Example.dense3) as H.
  cbv zeta in H. destruct H as (_ & Hg & _).
  - reflexivity.
  - exact example_dense3_keys.
  - exact Hg.
Defined.

Lemma dense_batch_query_is_query_for_each_witness :
  SemanticVectorStore.batch_query Example.embed ["q"; "r"] 3 Example.dense3
  = (map_outcome (fun q => fst (SemanticVectorStore.query Example.embed q 3 Example.dense3))
       ["q"; "r"],
     Example.dense3).
Proof.
  apply (proj1 (dense_batch_query_is_query_for_each Example.embed ["q"; "r"] 3
                  Example.dense3)).
  vm_compute. discriminate.
Defined.

Lemma dense_query_returns_distinct_keys_witness :
  exists r,
    SemanticVectorStore.query Example.embed "q" 3 Example.dense3 = (Return r, Example.dense3) /\
    NoDup (ids r).
Proof.
  destruct (dense_query_returns_distinct_keys Example.embed "q" 3 Example.dense3)
    as (r & Hr & Hn & _).
  - vm_compute. discriminate.
  - exact example_dense3_keys.
  - exact example_dense3_conforming.
  - exists r. split; [exact Hr|exact Hn].
Defined.

Lemma sparse_init_trusts_the_sidecar_witness :
  exists content,
    SparseVectorStore.__init__ Example.tokenize Example.ln Example.sparse2
    = (Return tt,
       SparseVectorStore.mkState
         (SparseVectorStore.set_assets content (SparseVectorStore.self Example.sparse2))
         (SparseVectorStore.world Example.sparse2)).
Proof.
  pose proof (sparse_init_trusts_the_sidecar Example.tokenize Example.ln Example.sparse2) as H.
  cbv zeta in H. destruct H as (H & _).
  - vm_compute. discriminate.
  - eexists. apply H.
    + vm_compute. reflexivity.
    + reflexivity.
Defined.
